(** * Magnum::Framebuffer

    A shallow embedding of [src/Framebuffer.h] (Magnum, 2012) and the
    properties of its binding / attachment / clear / blit interface.

    Every member function of [Framebuffer] that has a body in the header is
    a thin sequence of native OpenGL calls.  The embedding therefore has two
    layers:

    - the _native layer_: the part of the OpenGL framebuffer-object state
      machine that the header drives (current Read/Draw bindings, generated
      names, attachment tables, read/draw buffer selection, enabled
      capabilities, clear values, the sticky error flag).  Pixel contents
      are not modelled: clears, blits and read-backs are observed through
      the native call that is issued and the binding it addresses;
    - the _class_: each inline member function, written in a small state
      monad [GL] over the native state, the class-static [clearMask] and the
      sequence of native calls issued so far.

    The desktop-GL variant of the header is modelled (the members guarded by
    [#ifndef MAGNUM_TARGET_GLES] are present).  The blend-equation,
    blend-function and stencil-mask setters act on a part of the context of
    their own and are modelled separately (module [Pipeline]).  The colour
    and depth write-mask, blend-colour and viewport setters and the
    [GLdouble] overload of [setClearDepth] are plain forwarders that no
    property below touches; they are left out. *)

From stdpp Require Import base numbers gmap sets list.

(** ** Native scalar types

    [GLenum], [GLuint] and [GLbitfield] are 32-bit unsigned integers,
    [GLint] and [GLsizei] 32-bit signed ones.  [GLfloat] values are only
    ever forwarded, never computed on; they are carried as their IEEE-754
    binary32 bit pattern. *)

Abbreviation GLenum := N (only parsing).
Abbreviation GLuint := N (only parsing).
Abbreviation GLbitfield := N (only parsing).
Abbreviation GLint := Z (only parsing).
Abbreviation GLsizei := Z (only parsing).
Abbreviation GLfloat := N (only parsing).

(** Unsigned 32-bit wrap-around of [unsigned int] arithmetic. *)
Definition wrap32 (n : N) : N := (n mod 2 ^ 32)%N.

(** ** Native constants (values fixed by the OpenGL registry) *)

Definition GL_NONE : N := 0%N.
Definition GL_NO_ERROR : N := 0%N.
Definition GL_INVALID_ENUM : N := 0x0500%N.
Definition GL_INVALID_OPERATION : N := 0x0502%N.

Definition GL_BLEND : N := 0x0BE2%N.
Definition GL_DEPTH_CLAMP : N := 0x864F%N.
Definition GL_DEPTH_TEST : N := 0x0B71%N.
Definition GL_STENCIL_TEST : N := 0x0B90%N.
Definition GL_DITHER : N := 0x0BD0%N.
Definition GL_CULL_FACE : N := 0x0B44%N.

Definition GL_COLOR_BUFFER_BIT : N := 0x4000%N.
Definition GL_DEPTH_BUFFER_BIT : N := 0x0100%N.
Definition GL_STENCIL_BUFFER_BIT : N := 0x0400%N.

Definition GL_READ_FRAMEBUFFER : N := 0x8CA8%N.
Definition GL_DRAW_FRAMEBUFFER : N := 0x8CA9%N.
Definition GL_FRAMEBUFFER : N := 0x8D40%N.
Definition GL_RENDERBUFFER : N := 0x8D41%N.

Definition GL_COLOR_ATTACHMENT0 : N := 0x8CE0%N.
Definition GL_DEPTH_ATTACHMENT : N := 0x8D00%N.
Definition GL_STENCIL_ATTACHMENT : N := 0x8D20%N.
Definition GL_DEPTH_STENCIL_ATTACHMENT : N := 0x821A%N.

Definition GL_FRONT_LEFT : N := 0x0400%N.
Definition GL_FRONT_RIGHT : N := 0x0401%N.
Definition GL_BACK_LEFT : N := 0x0402%N.
Definition GL_BACK_RIGHT : N := 0x0403%N.
Definition GL_FRONT : N := 0x0404%N.
Definition GL_BACK : N := 0x0405%N.
Definition GL_LEFT : N := 0x0406%N.
Definition GL_RIGHT : N := 0x0407%N.
Definition GL_FRONT_AND_BACK : N := 0x0408%N.

Definition GL_NEAREST : N := 0x2600%N.
Definition GL_LINEAR : N := 0x2601%N.

(** The header documents color attachment IDs as "number between 0 and
    15". *)
Definition maxColorAttachments : N := 16%N.

(** ** Enumerations of the class

    Each [enum class] is an inductive type; [value] is the
    [static_cast] to the native constant. *)

Module Feature.
Inductive t := Blending | DepthClamp | DepthTest | StencilTest | Dithering | FaceCulling.
Definition value (f : t) : N :=
  match f with
  | Blending => GL_BLEND
  | DepthClamp => GL_DEPTH_CLAMP
  | DepthTest => GL_DEPTH_TEST
  | StencilTest => GL_STENCIL_TEST
  | Dithering => GL_DITHER
  | FaceCulling => GL_CULL_FACE
  end.
End Feature.

Module Clear.
Inductive t := Color | Depth | Stencil.
Definition value (c : t) : N :=
  match c with
  | Color => GL_COLOR_BUFFER_BIT
  | Depth => GL_DEPTH_BUFFER_BIT
  | Stencil => GL_STENCIL_BUFFER_BIT
  end.
Definition all : list t := [Color; Depth; Stencil].
End Clear.

Module Blit.
Inductive t := Color | Depth | Stencil.
Definition value (c : t) : N :=
  match c with
  | Color => GL_COLOR_BUFFER_BIT
  | Depth => GL_DEPTH_BUFFER_BIT
  | Stencil => GL_STENCIL_BUFFER_BIT
  end.
End Blit.

Module Target.
Inductive t := Read | Draw | ReadDraw.
Definition value (x : t) : N :=
  match x with
  | Read => GL_READ_FRAMEBUFFER
  | Draw => GL_DRAW_FRAMEBUFFER
  | ReadDraw => GL_FRAMEBUFFER
  end.
End Target.

Module DepthStencilAttachment.
Inductive t := Depth | Stencil | DepthStencil.
Definition value (a : t) : N :=
  match a with
  | Depth => GL_DEPTH_ATTACHMENT
  | Stencil => GL_STENCIL_ATTACHMENT
  | DepthStencil => GL_DEPTH_STENCIL_ATTACHMENT
  end.
End DepthStencilAttachment.

Module DefaultDrawAttachment.
Inductive t := None | BackLeft | BackRight | FrontLeft | FrontRight.
Definition value (a : t) : N :=
  match a with
  | None => GL_NONE
  | BackLeft => GL_BACK_LEFT
  | BackRight => GL_BACK_RIGHT
  | FrontLeft => GL_FRONT_LEFT
  | FrontRight => GL_FRONT_RIGHT
  end.
End DefaultDrawAttachment.

Module DefaultReadAttachment.
Inductive t :=
  FrontLeft | FrontRight | BackLeft | BackRight | Left | Right | Front | Back | FrontAndBack.
Definition value (a : t) : N :=
  match a with
  | FrontLeft => GL_FRONT_LEFT
  | FrontRight => GL_FRONT_RIGHT
  | BackLeft => GL_BACK_LEFT
  | BackRight => GL_BACK_RIGHT
  | Left => GL_LEFT
  | Right => GL_RIGHT
  | Front => GL_FRONT
  | Back => GL_BACK
  | FrontAndBack => GL_FRONT_AND_BACK
  end.
End DefaultReadAttachment.

(** [ClearMask] and [BlitMask] are [Corrade::Utility::Set<E, GLbitfield>]:
    a bit field built from enumerators with [|].  A mask is carried as its
    underlying [GLbitfield]; [ClearMask_of] / [BlitMask_of] build the mask
    naming the listed enumerators. *)

Definition ClearMask_of (cs : list Clear.t) : N :=
  foldr (λ c m, N.lor (Clear.value c) m) 0%N cs.

Definition BlitMask_of (cs : list Blit.t) : N :=
  foldr (λ c m, N.lor (Blit.value c) m) 0%N cs.

(** ** Collaborating resources

    Only what the header consumes: [id()] of a renderbuffer, [id()] and
    [target()] of a texture.  [CubeMapTexture::Coordinate] and
    [AbstractTexture::Filter] are declared in other headers; they are taken
    by their native value, of which [NearestNeighbor] is [GL_NEAREST]. *)

Record Renderbuffer := { rb_id : N }.
Record Texture := { tex_target : N; tex_id : N }.
Record CubeMapTexture := { cube_id : N }.

Definition Filter_NearestNeighbor : N := GL_NEAREST.

Record Vector2 := { vx : Z; vy : Z }.
Record Color4 := { cr : N; cg : N; cb : N; ca : N }.

(** ** The native layer *)

(** What a framebuffer attachment point holds. *)
Inductive Attachment :=
| AttRenderbuffer (renderbuffer : GLuint)
| AttTexture (textarget : GLenum) (texture : GLuint) (level : GLint) (layer : GLint).

(** The native entry points used by the header. *)
Inductive GLCall :=
| GlEnable (cap : GLenum)
| GlDisable (cap : GLenum)
| GlClear (mask : GLbitfield)
| GlClearColor (r g b a : GLfloat)
| GlClearDepthf (d : GLfloat)
| GlClearStencil (s : GLint)
| GlGenFramebuffers (n : GLsizei)
| GlDeleteFramebuffers (fbs : list GLuint)
| GlBindFramebuffer (target : GLenum) (fb : GLuint)
| GlReadBuffer (src : GLenum)
| GlDrawBuffers (bufs : list GLenum)
| GlFramebufferRenderbuffer (target attachment rbtarget : GLenum) (rb : GLuint)
| GlFramebufferTexture1D (target attachment textarget : GLenum) (tex : GLuint) (level : GLint)
| GlFramebufferTexture2D (target attachment textarget : GLenum) (tex : GLuint) (level : GLint)
| GlFramebufferTexture3D (target attachment textarget : GLenum) (tex : GLuint) (level layer : GLint)
| GlBlitFramebuffer (sx0 sy0 sx1 sy1 dx0 dy0 dx1 dy1 : GLint) (mask : GLbitfield) (filter : GLenum)
| GlReadPixels (x y : GLint) (w h : GLsizei) (format type : GLenum).

(** The state of one native context.  Name [0] is the default (on-screen)
    framebuffer. *)
Record GLState := mkGL {
  readFramebuffer : GLuint;
  drawFramebuffer : GLuint;
  names : gset N;
  attachments : gmap (N * N) Attachment;
  readBuffers : gmap N N;
  drawBuffers : gmap N (list N);
  enabled : gset N;
  clearColor : Color4;
  clearDepth : GLfloat;
  clearStencil : GLint;
  glError : GLenum
}.

Definition set_bindings (r d : N) (s : GLState) : GLState :=
  mkGL r d (names s) (attachments s) (readBuffers s) (drawBuffers s)
       (enabled s) (clearColor s) (clearDepth s) (clearStencil s) (glError s).
Definition set_names (ns : gset N) (s : GLState) : GLState :=
  mkGL (readFramebuffer s) (drawFramebuffer s) ns (attachments s) (readBuffers s)
       (drawBuffers s) (enabled s) (clearColor s) (clearDepth s) (clearStencil s) (glError s).
Definition set_attachments (m : gmap (N * N) Attachment) (s : GLState) : GLState :=
  mkGL (readFramebuffer s) (drawFramebuffer s) (names s) m (readBuffers s)
       (drawBuffers s) (enabled s) (clearColor s) (clearDepth s) (clearStencil s) (glError s).
Definition set_readBuffers (m : gmap N N) (s : GLState) : GLState :=
  mkGL (readFramebuffer s) (drawFramebuffer s) (names s) (attachments s) m
       (drawBuffers s) (enabled s) (clearColor s) (clearDepth s) (clearStencil s) (glError s).
Definition set_drawBuffers (m : gmap N (list N)) (s : GLState) : GLState :=
  mkGL (readFramebuffer s) (drawFramebuffer s) (names s) (attachments s) (readBuffers s)
       m (enabled s) (clearColor s) (clearDepth s) (clearStencil s) (glError s).
Definition set_enabled (e : gset N) (s : GLState) : GLState :=
  mkGL (readFramebuffer s) (drawFramebuffer s) (names s) (attachments s) (readBuffers s)
       (drawBuffers s) e (clearColor s) (clearDepth s) (clearStencil s) (glError s).
Definition set_clearColor (c : Color4) (s : GLState) : GLState :=
  mkGL (readFramebuffer s) (drawFramebuffer s) (names s) (attachments s) (readBuffers s)
       (drawBuffers s) (enabled s) c (clearDepth s) (clearStencil s) (glError s).
Definition set_clearDepth (d : N) (s : GLState) : GLState :=
  mkGL (readFramebuffer s) (drawFramebuffer s) (names s) (attachments s) (readBuffers s)
       (drawBuffers s) (enabled s) (clearColor s) d (clearStencil s) (glError s).
Definition set_clearStencil (v : Z) (s : GLState) : GLState :=
  mkGL (readFramebuffer s) (drawFramebuffer s) (names s) (attachments s) (readBuffers s)
       (drawBuffers s) (enabled s) (clearColor s) (clearDepth s) v (glError s).

(** The error flag is sticky: it records the first error until queried. *)
Definition raise (e : N) (s : GLState) : GLState :=
  if (glError s =? GL_NO_ERROR)%N
  then mkGL (readFramebuffer s) (drawFramebuffer s) (names s) (attachments s) (readBuffers s)
            (drawBuffers s) (enabled s) (clearColor s) (clearDepth s) (clearStencil s) e
  else s.

(** The two binding points of a context. *)
Inductive Role := ReadRole | DrawRole.

Definition bound (r : Role) (s : GLState) : N :=
  match r with
  | ReadRole => readFramebuffer s
  | DrawRole => drawFramebuffer s
  end.

(** Which binding points a framebuffer target enumerant names. *)
Definition target_roles (target : N) : option (bool * bool) :=
  if (target =? GL_READ_FRAMEBUFFER)%N then Some (true, false)
  else if (target =? GL_DRAW_FRAMEBUFFER)%N then Some (false, true)
  else if (target =? GL_FRAMEBUFFER)%N then Some (true, true)
  else None.

(** The framebuffer an attach call on [target] addresses: the one bound to
    that target, [GL_FRAMEBUFFER] standing for the draw binding. *)
Definition addressed (target : N) (s : GLState) : option N :=
  if (target =? GL_READ_FRAMEBUFFER)%N then Some (readFramebuffer s)
  else if (target =? GL_DRAW_FRAMEBUFFER)%N then Some (drawFramebuffer s)
  else if (target =? GL_FRAMEBUFFER)%N then Some (drawFramebuffer s)
  else None.

(** A name that may be bound: zero, or generated and not yet deleted. *)
Definition is_name (fb : N) (s : GLState) : bool :=
  (fb =? 0)%N || bool_decide (fb ∈ names s).

Definition glBindFramebuffer (target fb : N) (s : GLState) : GLState :=
  match target_roles target with
  | None => raise GL_INVALID_ENUM s
  | Some (r, d) =>
      if is_name fb s
      then set_bindings (if r then fb else readFramebuffer s)
                        (if d then fb else drawFramebuffer s) s
      else raise GL_INVALID_OPERATION s
  end.

(** A fresh, non-zero name. *)
Definition fresh_name (s : GLState) : N := fresh ({[0%N]} ∪ names s).

Definition gen_one (s : GLState) : GLState :=
  set_names ({[fresh_name s]} ∪ names s) s.

Definition glGenFramebuffers (n : Z) (s : GLState) : GLState :=
  Nat.iter (Z.to_nat n) gen_one s.

(** Deleting a bound framebuffer reverts the bindings it occupies to the
    default framebuffer; zero and unused names are silently ignored. *)
Definition delete_one (fb : N) (s : GLState) : GLState :=
  if is_name fb s && negb (fb =? 0)%N then
    mkGL (if (readFramebuffer s =? fb)%N then 0%N else readFramebuffer s)
         (if (drawFramebuffer s =? fb)%N then 0%N else drawFramebuffer s)
         (names s ∖ {[fb]})
         (filter (λ kv, kv.1.1 ≠ fb) (attachments s))
         (delete fb (readBuffers s))
         (delete fb (drawBuffers s))
         (enabled s) (clearColor s) (clearDepth s) (clearStencil s) (glError s)
  else s.

Definition glDeleteFramebuffers (fbs : list N) (s : GLState) : GLState :=
  foldl (λ st fb, delete_one fb st) s fbs.

(** The attachment points an attachment enumerant stands for: a colour
    point below the maximum, depth, stencil, or both for the combined
    depth-stencil enumerant; none for anything else. *)
Definition attachment_points (attachment : N) : list N :=
  if (attachment =? GL_DEPTH_STENCIL_ATTACHMENT)%N
  then [GL_DEPTH_ATTACHMENT; GL_STENCIL_ATTACHMENT]
  else if (attachment =? GL_DEPTH_ATTACHMENT)%N || (attachment =? GL_STENCIL_ATTACHMENT)%N
  then [attachment]
  else if (GL_COLOR_ATTACHMENT0 <=? attachment)%N
          && (attachment <? GL_COLOR_ATTACHMENT0 + maxColorAttachments)%N
  then [attachment]
  else [].

(** The native attach: it addresses whatever framebuffer is bound to
    [target] at the time of the call.  Attaching object zero detaches. *)
Definition attach_native (target attachment : N) (a : option Attachment) (s : GLState) : GLState :=
  match addressed target s with
  | None => raise GL_INVALID_ENUM s
  | Some fb =>
      if (fb =? 0)%N then raise GL_INVALID_OPERATION s
      else match attachment_points attachment with
           | [] => raise GL_INVALID_ENUM s
           | pts => set_attachments
                      (foldr (λ p m, partial_alter (λ _, a) (fb, p) m) (attachments s) pts) s
           end
  end.

Definition object_or_none (id : N) (a : Attachment) : option Attachment :=
  if (id =? 0)%N then None else Some a.

(** The planes a clear bit field names. *)
Definition mask_names (mask : N) (c : Clear.t) : bool :=
  negb (N.land mask (Clear.value c) =? 0)%N.

Definition cleared_planes (mask : N) : list Clear.t :=
  filter (λ c, mask_names mask c = true) Clear.all.

(** One native call.  Clears, blits and pixel read-backs act on pixel
    data of the bound framebuffers and leave the object state alone. *)
Definition gl_exec (c : GLCall) (s : GLState) : GLState :=
  match c with
  | GlEnable cap => set_enabled ({[cap]} ∪ enabled s) s
  | GlDisable cap => set_enabled (enabled s ∖ {[cap]}) s
  | GlClear _ => s
  | GlClearColor r g b a => set_clearColor {| cr := r; cg := g; cb := b; ca := a |} s
  | GlClearDepthf d => set_clearDepth d s
  | GlClearStencil v => set_clearStencil v s
  | GlGenFramebuffers n => glGenFramebuffers n s
  | GlDeleteFramebuffers fbs => glDeleteFramebuffers fbs s
  | GlBindFramebuffer target fb => glBindFramebuffer target fb s
  | GlReadBuffer src => set_readBuffers (<[readFramebuffer s := src]> (readBuffers s)) s
  | GlDrawBuffers bufs => set_drawBuffers (<[drawFramebuffer s := bufs]> (drawBuffers s)) s
  | GlFramebufferRenderbuffer target att _ rb =>
      attach_native target att (object_or_none rb (AttRenderbuffer rb)) s
  | GlFramebufferTexture1D target att textarget tex level =>
      attach_native target att (object_or_none tex (AttTexture textarget tex level 0)) s
  | GlFramebufferTexture2D target att textarget tex level =>
      attach_native target att (object_or_none tex (AttTexture textarget tex level 0)) s
  | GlFramebufferTexture3D target att textarget tex level layer =>
      attach_native target att (object_or_none tex (AttTexture textarget tex level layer)) s
  | GlBlitFramebuffer _ _ _ _ _ _ _ _ _ _ => s
  | GlReadPixels _ _ _ _ _ _ => s
  end.

(** Documented initial state of a context: dithering on, everything else
    off; clear colour opaque black (binary32 [1.0] is [0x3F800000]), clear
    depth [1.0], clear stencil [0]; default framebuffer bound. *)
Definition gl_initial : GLState :=
  {| readFramebuffer := 0; drawFramebuffer := 0; names := ∅; attachments := ∅;
     readBuffers := ∅; drawBuffers := ∅; enabled := {[GL_DITHER]};
     clearColor := {| cr := 0; cg := 0; cb := 0; ca := 0x3F800000 |};
     clearDepth := 0x3F800000%N; clearStencil := 0%Z; glError := GL_NO_ERROR |}.

(** ** The class layer *)

(** What the member functions act on: the native context, the class-static
    [clearMask], and the native calls issued so far (oldest first). *)
Record World := mkWorld {
  gl : GLState;
  clearMask : GLbitfield;
  calls : list GLCall
}.

Definition GL (A : Type) : Type := World → A * World.

#[export] Instance GL_ret : MRet GL := λ A a w, (a, w).
#[export] Instance GL_bind : MBind GL := λ A B f m w, let (a, w') := m w in f a w'.

(** Issue one native call. *)
Definition native (c : GLCall) : GL unit :=
  λ w, (tt, {| gl := gl_exec c (gl w); clearMask := clearMask w; calls := calls w ++ [c] |}).

Definition run {A} (m : GL A) (w : World) : World := (m w).2.

(** [GLuint framebuffer], the only non-static data member. *)
Record Framebuffer := { framebuffer : GLuint }.

Section members.
Variable this : Framebuffer.

(** [inline static void clear() { glClear(static_cast<GLbitfield>(clearMask)); }] *)
Definition clear : GL unit :=
  λ w, native (GlClear (clearMask w)) w.

(** [inline static void clear(ClearMask mask) { glClear(static_cast<GLbitfield>(mask)); }] *)
Definition clear_mask (mask : GLbitfield) : GL unit :=
  native (GlClear mask).

Definition setClearColor (color : Color4) : GL unit :=
  native (GlClearColor (cr color) (cg color) (cb color) (ca color)).

Definition setClearDepth (depth : GLfloat) : GL unit :=
  native (GlClearDepthf depth).

Definition setClearStencil (stencil : GLint) : GL unit :=
  native (GlClearStencil stencil).

(** [inline Framebuffer() { glGenFramebuffers(1, &framebuffer); }] *)
Definition Framebuffer_new : GL Framebuffer :=
  λ w, ({| framebuffer := fresh_name (gl w) |}, run (native (GlGenFramebuffers 1)) w).

(** [inline ~Framebuffer() { glDeleteFramebuffers(1, &framebuffer); }] *)
Definition Framebuffer_delete : GL unit :=
  native (GlDeleteFramebuffers [framebuffer this]).

(** [glBindFramebuffer(static_cast<GLenum>(target), 0);] *)
Definition bindDefault (target : Target.t) : GL unit :=
  native (GlBindFramebuffer (Target.value target) 0).

(** [glBindFramebuffer(static_cast<GLenum>(target), framebuffer);] *)
Definition bind (target : Target.t) : GL unit :=
  native (GlBindFramebuffer (Target.value target) (framebuffer this)).

Definition mapDefaultForRead (attachment : DefaultReadAttachment.t) : GL unit :=
  bindDefault Target.Read ;;
  native (GlReadBuffer (DefaultReadAttachment.value attachment)).

(** [GL_COLOR_ATTACHMENT0 + colorAttachment] is [unsigned int]
    arithmetic. *)
Definition mapForRead (colorAttachment : N) : GL unit :=
  bind Target.Read ;;
  native (GlReadBuffer (wrap32 (GL_COLOR_ATTACHMENT0 + colorAttachment))).

(** *** Attaching: ten overloads, each [bind(target)] followed by the
    native attach on the same target. *)

Definition attachRenderbuffer_ds (target : Target.t)
    (depthStencilAttachment : DepthStencilAttachment.t) (renderbuffer : Renderbuffer) : GL unit :=
  bind target ;;
  native (GlFramebufferRenderbuffer (Target.value target)
            (DepthStencilAttachment.value depthStencilAttachment)
            GL_RENDERBUFFER (rb_id renderbuffer)).

Definition attachRenderbuffer (target : Target.t) (colorAttachment : N)
    (renderbuffer : Renderbuffer) : GL unit :=
  bind target ;;
  native (GlFramebufferRenderbuffer (Target.value target)
            (wrap32 (GL_COLOR_ATTACHMENT0 + colorAttachment))
            GL_RENDERBUFFER (rb_id renderbuffer)).

Definition attachTexture1D_ds (target : Target.t)
    (depthStencilAttachment : DepthStencilAttachment.t) (texture : Texture)
    (mipLevel : GLint) : GL unit :=
  bind target ;;
  native (GlFramebufferTexture1D (Target.value target)
            (DepthStencilAttachment.value depthStencilAttachment)
            (tex_target texture) (tex_id texture) mipLevel).

Definition attachTexture1D (target : Target.t) (colorAttachment : N) (texture : Texture)
    (mipLevel : GLint) : GL unit :=
  bind target ;;
  native (GlFramebufferTexture1D (Target.value target)
            (wrap32 (GL_COLOR_ATTACHMENT0 + colorAttachment))
            (tex_target texture) (tex_id texture) mipLevel).

Definition attachTexture2D_ds (target : Target.t)
    (depthStencilAttachment : DepthStencilAttachment.t) (texture : Texture)
    (mipLevel : GLint) : GL unit :=
  bind target ;;
  native (GlFramebufferTexture2D (Target.value target)
            (DepthStencilAttachment.value depthStencilAttachment)
            (tex_target texture) (tex_id texture) mipLevel).

Definition attachTexture2D (target : Target.t) (colorAttachment : N) (texture : Texture)
    (mipLevel : GLint) : GL unit :=
  bind target ;;
  native (GlFramebufferTexture2D (Target.value target)
            (wrap32 (GL_COLOR_ATTACHMENT0 + colorAttachment))
            (tex_target texture) (tex_id texture) mipLevel).

Definition attachCubeMapTexture_ds (target : Target.t)
    (depthStencilAttachment : DepthStencilAttachment.t) (texture : CubeMapTexture)
    (coordinate : GLenum) (mipLevel : GLint) : GL unit :=
  bind target ;;
  native (GlFramebufferTexture2D (Target.value target)
            (DepthStencilAttachment.value depthStencilAttachment)
            coordinate (cube_id texture) mipLevel).

Definition attachCubeMapTexture (target : Target.t) (colorAttachment : N)
    (texture : CubeMapTexture) (coordinate : GLenum) (mipLevel : GLint) : GL unit :=
  bind target ;;
  native (GlFramebufferTexture2D (Target.value target)
            (wrap32 (GL_COLOR_ATTACHMENT0 + colorAttachment))
            coordinate (cube_id texture) mipLevel).

Definition attachTexture3D_ds (target : Target.t)
    (depthStencilAttachment : DepthStencilAttachment.t) (texture : Texture)
    (mipLevel layer : GLint) : GL unit :=
  bind target ;;
  native (GlFramebufferTexture3D (Target.value target)
            (DepthStencilAttachment.value depthStencilAttachment)
            (tex_target texture) (tex_id texture) mipLevel layer).

Definition attachTexture3D (target : Target.t) (colorAttachment : N) (texture : Texture)
    (mipLevel layer : GLint) : GL unit :=
  bind target ;;
  native (GlFramebufferTexture3D (Target.value target)
            (wrap32 (GL_COLOR_ATTACHMENT0 + colorAttachment))
            (tex_target texture) (tex_id texture) mipLevel layer).

(** *** Blitting *)

Definition blit (bottomLeft topRight destinationBottomLeft destinationTopRight : Vector2)
    (blitMask : GLbitfield) (filter : GLenum) : GL unit :=
  native (GlBlitFramebuffer (vx bottomLeft) (vy bottomLeft) (vx topRight) (vy topRight)
            (vx destinationBottomLeft) (vy destinationBottomLeft)
            (vx destinationTopRight) (vy destinationTopRight) blitMask filter).

Definition blit_same (bottomLeft topRight : Vector2) (blitMask : GLbitfield) : GL unit :=
  native (GlBlitFramebuffer (vx bottomLeft) (vy bottomLeft) (vx topRight) (vy topRight)
            (vx bottomLeft) (vy bottomLeft) (vx topRight) (vy topRight)
            blitMask Filter_NearestNeighbor).
End members.

(** ** Members that the header only declares

    [setFeature], [mapForDraw], [mapDefaultForDraw], both [read] overloads
    and the initial value of the static [clearMask] are defined in
    [Framebuffer.cpp]. *)

(** Modelled from the spec: the body of [setFeature] is missing.  The spec
    has it toggle one flag, and has the no-argument [clear()] skip the
    depth (stencil) buffer exactly when the depth (stencil) test is
    disabled; the mask [clear()] passes on is the static [clearMask], so
    toggling one of the two tests sets or removes that buffer's bit. *)
Definition update_clearMask (f : GLbitfield → GLbitfield) : GL unit :=
  λ w, (tt, {| gl := gl w; clearMask := f (clearMask w); calls := calls w |}).

Definition setFeature (feature : Feature.t) (enabled : bool) : GL unit :=
  native (if enabled then GlEnable (Feature.value feature)
          else GlDisable (Feature.value feature)) ;;
  let change (bit mask : N) :=
    if enabled then N.lor mask bit else N.land mask (N.lnot bit 32) in
  match feature with
  | Feature.DepthTest => update_clearMask (change (Clear.value Clear.Depth))
  | Feature.StencilTest => update_clearMask (change (Clear.value Clear.Stencil))
  | _ => mret tt
  end.

(** Modelled from the spec: the initial value of [clearMask] is missing.
    Every test is off by default, so only colour is cleared. *)
Definition clearMask_initial : GLbitfield := Clear.value Clear.Color.

Definition initial : World :=
  {| gl := gl_initial; clearMask := clearMask_initial; calls := [] |}.

(** What an image destination is told about the pixels it receives. *)
Record ImageData := {
  img_dimensions : Vector2;
  img_components : GLenum;
  img_type : GLenum;
  img_usage : option GLenum
}.

(** Modelled from the spec: the body of [read] is missing.  The spec has it
    extract the rectangle from the Read-bound target into the destination
    image description, forwarding the parameters without validation. *)
Definition read (offset dimensions : Vector2) (components type : GLenum) : GL ImageData :=
  native (GlReadPixels (vx offset) (vy offset) (vx dimensions) (vy dimensions)
            components type) ;;
  mret {| img_dimensions := dimensions; img_components := components;
          img_type := type; img_usage := None |}.

(** Modelled from the spec: the buffer-backed [read], tagged with a usage
    hint. *)
Definition read_buffered (offset dimensions : Vector2) (components type usage : GLenum)
    : GL ImageData :=
  native (GlReadPixels (vx offset) (vy offset) (vx dimensions) (vy dimensions)
            components type) ;;
  mret {| img_dimensions := dimensions; img_components := components;
          img_type := type; img_usage := Some usage |}.

(** Modelled from the spec: the body of [mapForDraw] is missing.  The spec
    has it record the colour slots in the given order on the Draw-bound
    owner, a [none] entry (documented in the header as [-1]) suppressing
    that output. *)
Definition mapForDraw (this : Framebuffer) (colorAttachments : list Z) : GL unit :=
  bind this Target.Draw ;;
  native (GlDrawBuffers
            (map (λ i, if (i =? -1)%Z then GL_NONE
                       else Z.to_N ((Z.of_N GL_COLOR_ATTACHMENT0 + i) mod 2 ^ 32))
                 colorAttachments)).

(** Modelled from the spec: the body of [mapDefaultForDraw] is missing;
    same semantics on the default target's physical buffers. *)
Definition mapDefaultForDraw (attachments : list DefaultDrawAttachment.t) : GL unit :=
  bindDefault Target.Draw ;;
  native (GlDrawBuffers (map DefaultDrawAttachment.value attachments)).

(** ** Call sequences *)

(** The ten attach overloads as one type. *)
Inductive AttachCall :=
| RenderbufferDS (target : Target.t) (a : DepthStencilAttachment.t) (rb : Renderbuffer)
| RenderbufferColor (target : Target.t) (n : N) (rb : Renderbuffer)
| Texture1DDS (target : Target.t) (a : DepthStencilAttachment.t) (tex : Texture) (mipLevel : Z)
| Texture1DColor (target : Target.t) (n : N) (tex : Texture) (mipLevel : Z)
| Texture2DDS (target : Target.t) (a : DepthStencilAttachment.t) (tex : Texture) (mipLevel : Z)
| Texture2DColor (target : Target.t) (n : N) (tex : Texture) (mipLevel : Z)
| CubeMapDS (target : Target.t) (a : DepthStencilAttachment.t) (tex : CubeMapTexture)
            (coordinate : N) (mipLevel : Z)
| CubeMapColor (target : Target.t) (n : N) (tex : CubeMapTexture) (coordinate : N) (mipLevel : Z)
| Texture3DDS (target : Target.t) (a : DepthStencilAttachment.t) (tex : Texture)
              (mipLevel layer : Z)
| Texture3DColor (target : Target.t) (n : N) (tex : Texture) (mipLevel layer : Z).

Definition attach (this : Framebuffer) (c : AttachCall) : GL unit :=
  match c with
  | RenderbufferDS t a rb => attachRenderbuffer_ds this t a rb
  | RenderbufferColor t n rb => attachRenderbuffer this t n rb
  | Texture1DDS t a tex l => attachTexture1D_ds this t a tex l
  | Texture1DColor t n tex l => attachTexture1D this t n tex l
  | Texture2DDS t a tex l => attachTexture2D_ds this t a tex l
  | Texture2DColor t n tex l => attachTexture2D this t n tex l
  | CubeMapDS t a tex c l => attachCubeMapTexture_ds this t a tex c l
  | CubeMapColor t n tex c l => attachCubeMapTexture this t n tex c l
  | Texture3DDS t a tex l y => attachTexture3D_ds this t a tex l y
  | Texture3DColor t n tex l y => attachTexture3D this t n tex l y
  end.

(** The role target an attach call is given. *)
Definition attach_target (c : AttachCall) : Target.t :=
  match c with
  | RenderbufferDS t _ _ | RenderbufferColor t _ _
  | Texture1DDS t _ _ _ | Texture1DColor t _ _ _
  | Texture2DDS t _ _ _ | Texture2DColor t _ _ _
  | CubeMapDS t _ _ _ _ | CubeMapColor t _ _ _ _
  | Texture3DDS t _ _ _ _ | Texture3DColor t _ _ _ _ => t
  end.

(** The native slot enumerant an attach call computes. *)
Definition slot_ds (a : DepthStencilAttachment.t) : N := DepthStencilAttachment.value a.
Definition slot_color (n : N) : N := wrap32 (GL_COLOR_ATTACHMENT0 + n).

(** The native attach an attach call ends with. *)
Definition attach_call (c : AttachCall) : GLCall :=
  match c with
  | RenderbufferDS t a rb =>
      GlFramebufferRenderbuffer (Target.value t) (slot_ds a) GL_RENDERBUFFER (rb_id rb)
  | RenderbufferColor t n rb =>
      GlFramebufferRenderbuffer (Target.value t) (slot_color n) GL_RENDERBUFFER (rb_id rb)
  | Texture1DDS t a tex l =>
      GlFramebufferTexture1D (Target.value t) (slot_ds a) (tex_target tex) (tex_id tex) l
  | Texture1DColor t n tex l =>
      GlFramebufferTexture1D (Target.value t) (slot_color n) (tex_target tex) (tex_id tex) l
  | Texture2DDS t a tex l =>
      GlFramebufferTexture2D (Target.value t) (slot_ds a) (tex_target tex) (tex_id tex) l
  | Texture2DColor t n tex l =>
      GlFramebufferTexture2D (Target.value t) (slot_color n) (tex_target tex) (tex_id tex) l
  | CubeMapDS t a tex c l =>
      GlFramebufferTexture2D (Target.value t) (slot_ds a) c (cube_id tex) l
  | CubeMapColor t n tex c l =>
      GlFramebufferTexture2D (Target.value t) (slot_color n) c (cube_id tex) l
  | Texture3DDS t a tex l y =>
      GlFramebufferTexture3D (Target.value t) (slot_ds a) (tex_target tex) (tex_id tex) l y
  | Texture3DColor t n tex l y =>
      GlFramebufferTexture3D (Target.value t) (slot_color n) (tex_target tex) (tex_id tex) l y
  end.

(** One call of the public interface. *)
Inductive Op :=
| OpSetFeature (feature : Feature.t) (enabled : bool)
| OpClear
| OpClearMask (mask : N)
| OpSetClearColor (color : Color4)
| OpSetClearDepth (depth : N)
| OpSetClearStencil (stencil : Z)
| OpNew
| OpDelete (fb : Framebuffer)
| OpBindDefault (target : Target.t)
| OpBind (fb : Framebuffer) (target : Target.t)
| OpMapDefaultForDraw (attachments : list DefaultDrawAttachment.t)
| OpMapForDraw (fb : Framebuffer) (colorAttachments : list Z)
| OpMapDefaultForRead (attachment : DefaultReadAttachment.t)
| OpMapForRead (fb : Framebuffer) (colorAttachment : N)
| OpAttach (fb : Framebuffer) (c : AttachCall)
| OpBlit (bottomLeft topRight destinationBottomLeft destinationTopRight : Vector2)
         (blitMask : N) (filter : N)
| OpBlitSame (bottomLeft topRight : Vector2) (blitMask : N)
| OpRead (offset dimensions : Vector2) (components type : N)
| OpReadBuffered (offset dimensions : Vector2) (components type usage : N).

Definition exec (o : Op) : World → World :=
  match o with
  | OpSetFeature f b => run (setFeature f b)
  | OpClear => run clear
  | OpClearMask m => run (clear_mask m)
  | OpSetClearColor c => run (setClearColor c)
  | OpSetClearDepth d => run (setClearDepth d)
  | OpSetClearStencil s => run (setClearStencil s)
  | OpNew => run Framebuffer_new
  | OpDelete fb => run (Framebuffer_delete fb)
  | OpBindDefault t => run (bindDefault t)
  | OpBind fb t => run (bind fb t)
  | OpMapDefaultForDraw l => run (mapDefaultForDraw l)
  | OpMapForDraw fb l => run (mapForDraw fb l)
  | OpMapDefaultForRead a => run (mapDefaultForRead a)
  | OpMapForRead fb n => run (mapForRead fb n)
  | OpAttach fb c => run (attach fb c)
  | OpBlit a b c d m f => run (blit a b c d m f)
  | OpBlitSame a b m => run (blit_same a b m)
  | OpRead o d c t => run (read o d c t)
  | OpReadBuffered o d c t u => run (read_buffered o d c t u)
  end.

Definition exec_all (ops : list Op) (w : World) : World :=
  foldl (λ st o, exec o st) w ops.

(** Does a role target cover a binding point? *)
Definition covers (t : Target.t) (r : Role) : bool :=
  match t, r with
  | Target.Read, ReadRole | Target.Draw, DrawRole | Target.ReadDraw, _ => true
  | _, _ => false
  end.

(** The framebuffer currently bound for a role target (the one a native
    call on that target addresses). *)
Definition current (t : Target.t) (w : World) : N :=
  match t with
  | Target.Read => readFramebuffer (gl w)
  | Target.Draw | Target.ReadDraw => drawFramebuffer (gl w)
  end.

Definition live (fb : Framebuffer) (w : World) : Prop :=
  framebuffer fb ≠ 0%N ∧ framebuffer fb ∈ names (gl w).

(** The (framebuffer, plane) pairs a native call clears: a clear acts on
    the framebuffer bound for drawing. *)
Definition clears (c : GLCall) (s : GLState) : list (N * Clear.t) :=
  match c with
  | GlClear mask => map (λ p, (drawFramebuffer s, p)) (cleared_planes mask)
  | _ => []
  end.

(** The native slot enumerant an attach call addresses. *)
Definition attach_slot (c : AttachCall) : N :=
  match c with
  | RenderbufferDS _ a _ | Texture1DDS _ a _ _ | Texture2DDS _ a _ _
  | CubeMapDS _ a _ _ _ | Texture3DDS _ a _ _ _ => slot_ds a
  | RenderbufferColor _ n _ | Texture1DColor _ n _ _ | Texture2DColor _ n _ _
  | CubeMapColor _ n _ _ _ | Texture3DColor _ n _ _ _ => slot_color n
  end.

(** The colour slot index a colour overload is given. *)
Definition attach_color_index (c : AttachCall) : option N :=
  match c with
  | RenderbufferColor _ n _ | Texture1DColor _ n _ _ | Texture2DColor _ n _ _
  | CubeMapColor _ n _ _ _ | Texture3DColor _ n _ _ _ => Some n
  | _ => None
  end.

(** The resource an attach call is given: its object name, and the
    reference (object with its addressing) the slot is to hold. *)
Definition attach_resource (c : AttachCall) : N * Attachment :=
  match c with
  | RenderbufferDS _ _ rb | RenderbufferColor _ _ rb =>
      (rb_id rb, AttRenderbuffer (rb_id rb))
  | Texture1DDS _ _ tex l | Texture1DColor _ _ tex l
  | Texture2DDS _ _ tex l | Texture2DColor _ _ tex l =>
      (tex_id tex, AttTexture (tex_target tex) (tex_id tex) l 0)
  | CubeMapDS _ _ tex co l | CubeMapColor _ _ tex co l =>
      (cube_id tex, AttTexture co (cube_id tex) l 0)
  | Texture3DDS _ _ tex l y | Texture3DColor _ _ tex l y =>
      (tex_id tex, AttTexture (tex_target tex) (tex_id tex) l y)
  end.

(** The contents of a colour slot of a render target.  The class keeps no
    table of its own (its only data member is the handle): what is attached
    where is held by the native layer, under the target's name. *)
Definition color_slot (fb : Framebuffer) (n : N) (w : World) : option Attachment :=
  attachments (gl w) !! (framebuffer fb, (GL_COLOR_ATTACHMENT0 + n)%N).

(** The two bind operations of the interface. *)
Inductive BindOp :=
| Bind (fb : Framebuffer) (target : Target.t)
| BindDefault (target : Target.t).

Definition bind_op (b : BindOp) : Op :=
  match b with
  | Bind fb t => OpBind fb t
  | BindDefault t => OpBindDefault t
  end.

Definition bind_target (b : BindOp) : Target.t :=
  match b with Bind _ t | BindDefault t => t end.

(** The name a bind operation binds; the default target is name [0]. *)
Definition bind_name (b : BindOp) : N :=
  match b with Bind fb _ => framebuffer fb | BindDefault _ => 0%N end.

(** What a binding point holds after a sequence of binds: the name of the
    last bind whose role target covers it, or what it held before. *)
Definition last_bound (r : Role) (bs : list BindOp) (before : N) : N :=
  foldl (λ cur b, if covers (bind_target b) r then bind_name b else cur) before bs.

(** How often a native call, and a sequence of them, releases a name. *)
Definition releases (name : N) (c : GLCall) : nat :=
  match c with
  | GlDeleteFramebuffers fbs => length (filter (λ fb, fb = name) fbs)
  | _ => 0
  end.

Definition release_count (name : N) (l : list GLCall) : nat :=
  foldr (λ c k, releases name c + k) 0 l.

(** Replaying native calls on a native state. *)
Definition replay (l : list GLCall) (s : GLState) : GLState :=
  foldl (λ st c, gl_exec c st) s l.

(** Where the native calls of an operation that release a name or switch
    a capability come from: only the destructor releases, and only its own
    handle; only [setFeature] enables or disables, and only its feature. *)
Definition from_op (o : Op) (c : GLCall) : Prop :=
  match c with
  | GlDeleteFramebuffers fbs => ∃ fb, o = OpDelete fb ∧ fbs = [framebuffer fb]
  | GlEnable cap => ∃ f, o = OpSetFeature f true ∧ cap = Feature.value f
  | GlDisable cap => ∃ f, o = OpSetFeature f false ∧ cap = Feature.value f
  | _ => True
  end.

(** Is a feature enabled in the native context? *)
Definition is_enabled (f : Feature.t) (w : World) : Prop :=
  Feature.value f ∈ enabled (gl w).

(** The mask that names colour, and depth (stencil) exactly when the depth
    (stencil) test is among the enabled capabilities. *)
Definition expected_clearMask (e : gset N) : N :=
  N.lor (Clear.value Clear.Color)
    (N.lor (if bool_decide (GL_DEPTH_TEST ∈ e) then Clear.value Clear.Depth else 0%N)
           (if bool_decide (GL_STENCIL_TEST ∈ e) then Clear.value Clear.Stencil else 0%N)).

#[export] Instance Feature_eq_dec : EqDecision Feature.t.
Proof. solve_decision. Defined.

(** ** Concrete scenarios *)

Definition targetA : Framebuffer := {| framebuffer := 1 |}.
Definition targetB : Framebuffer := {| framebuffer := 2 |}.

(** Two render targets constructed in a fresh context. *)
Definition two_targets : World := exec_all [OpNew; OpNew] initial.

Definition colorTexture : Texture := {| tex_target := 0x0DE1; tex_id := 9 |}.
Definition depthBuffer : Renderbuffer := {| rb_id := 7 |}.

(** The role target a native attach call is issued on. *)
Definition attach_target_of (c : GLCall) : option N :=
  match c with
  | GlFramebufferRenderbuffer t _ _ _ | GlFramebufferTexture1D t _ _ _ _
  | GlFramebufferTexture2D t _ _ _ _ | GlFramebufferTexture3D t _ _ _ _ _ => Some t
  | _ => None
  end.

(** Is every native attach in a sequence of calls immediately preceded by a
    native bind on the same role target?  [prev] is the call before the
    sequence, if any. *)
Fixpoint bind_precedes (prev : option GLCall) (l : list GLCall) : bool :=
  match l with
  | [] => true
  | c :: l' =>
      match attach_target_of c with
      | None => true
      | Some t => match prev with
                  | Some (GlBindFramebuffer t' _) => (t =? t')%N
                  | _ => false
                  end
      end && bind_precedes (Some c) l'
  end.

(** ** Further observations on the native state *)

(** The operations whose body is in the header (the others are only
    declared there). *)
Definition in_header (o : Op) : Prop :=
  match o with
  | OpSetFeature _ _ | OpMapDefaultForDraw _ | OpMapForDraw _ _
  | OpRead _ _ _ _ | OpReadBuffered _ _ _ _ _ => False
  | _ => True
  end.

(** The depth / stencil slot index a depth-stencil overload is given. *)
Definition attach_ds_index (c : AttachCall) : option DepthStencilAttachment.t :=
  match c with
  | RenderbufferDS _ a _ | Texture1DDS _ a _ _ | Texture2DDS _ a _ _
  | CubeMapDS _ a _ _ _ | Texture3DDS _ a _ _ _ => Some a
  | _ => None
  end.

(** The contents of the depth and of the stencil attachment point of a
    render target, held by the native layer like the colour slots. *)
Definition depth_slot (fb : Framebuffer) (w : World) : option Attachment :=
  attachments (gl w) !! (framebuffer fb, GL_DEPTH_ATTACHMENT).

Definition stencil_slot (fb : Framebuffer) (w : World) : option Attachment :=
  attachments (gl w) !! (framebuffer fb, GL_STENCIL_ATTACHMENT).

(** The colour index under which a colour overload reaches the same native
    slot as a depth-stencil overload. *)
Definition alias_index (a : DepthStencilAttachment.t) : N :=
  match a with
  | DepthStencilAttachment.Depth => 32
  | DepthStencilAttachment.Stencil => 64
  | DepthStencilAttachment.DepthStencil => 4294964538
  end.

(** A native state without dangling references: zero is not a generated
    name, each binding point holds the default framebuffer or a generated
    name, and attachments and buffer selections are recorded only under
    such names. *)
Definition well_formed (s : GLState) : Prop :=
  (0%N ∉ names s)
  ∧ (∀ r, is_name (bound r s) s = true)
  ∧ (∀ fb p a, attachments s !! (fb, p) = Some a → fb ∈ names s)
  ∧ (∀ fb b, readBuffers s !! fb = Some b → is_name fb s = true)
  ∧ (∀ fb b, drawBuffers s !! fb = Some b → is_name fb s = true).

(** ** Blend and stencil-mask state

    The blend-equation, blend-function and stencil-mask setters forward to
    native calls on a part of the context that the framebuffer members
    never touch; it is modelled on its own.  The native layer's validation
    of blend enumerants is not modelled ([enum class] arguments are always
    accepted ones). *)

Module Pipeline.

Definition GL_FUNC_ADD : N := 0x8006%N.
Definition GL_MIN : N := 0x8007%N.
Definition GL_MAX : N := 0x8008%N.
Definition GL_FUNC_SUBTRACT : N := 0x800A%N.
Definition GL_FUNC_REVERSE_SUBTRACT : N := 0x800B%N.

Definition GL_ZERO : N := 0%N.
Definition GL_ONE : N := 1%N.
Definition GL_SRC_COLOR : N := 0x0300%N.
Definition GL_ONE_MINUS_SRC_COLOR : N := 0x0301%N.
Definition GL_SRC_ALPHA : N := 0x0302%N.
Definition GL_ONE_MINUS_SRC_ALPHA : N := 0x0303%N.
Definition GL_DST_ALPHA : N := 0x0304%N.
Definition GL_ONE_MINUS_DST_ALPHA : N := 0x0305%N.
Definition GL_DST_COLOR : N := 0x0306%N.
Definition GL_ONE_MINUS_DST_COLOR : N := 0x0307%N.
Definition GL_SRC_ALPHA_SATURATE : N := 0x0308%N.
Definition GL_CONSTANT_COLOR : N := 0x8001%N.
Definition GL_ONE_MINUS_CONSTANT_COLOR : N := 0x8002%N.
Definition GL_CONSTANT_ALPHA : N := 0x8003%N.
Definition GL_ONE_MINUS_CONSTANT_ALPHA : N := 0x8004%N.
Definition GL_SRC1_ALPHA : N := 0x8589%N.
Definition GL_SRC1_COLOR : N := 0x88F9%N.
Definition GL_ONE_MINUS_SRC1_COLOR : N := 0x88FA%N.
Definition GL_ONE_MINUS_SRC1_ALPHA : N := 0x88FB%N.

Module StencilMaskFace.
Inductive t := Front | Back | FrontAndBack.
Definition value (f : t) : N :=
  match f with
  | Front => GL_FRONT
  | Back => GL_BACK
  | FrontAndBack => GL_FRONT_AND_BACK
  end.
End StencilMaskFace.

Module BlendEquation.
Inductive t := Add | Subtract | ReverseSubtract | Min | Max.
Definition value (e : t) : N :=
  match e with
  | Add => GL_FUNC_ADD
  | Subtract => GL_FUNC_SUBTRACT
  | ReverseSubtract => GL_FUNC_REVERSE_SUBTRACT
  | Min => GL_MIN
  | Max => GL_MAX
  end.
End BlendEquation.

Module BlendFunction.
Inductive t :=
| Zero | One | ConstantColor | OneMinusConstantColor | ConstantAlpha | OneMinusConstantAlpha
| SourceColor | SecondSourceColor | OneMinusSourceColor | OneMinusSecondSourceColor
| SourceAlpha | SourceAlphaSaturate | SecondSourceAlpha | OneMinusSourceAlpha
| OneMinusSecondSourceAlpha | DestinationColor | OneMinusDestinationColor
| DestinationAlpha | OneMinusDestinationAlpha.
Definition value (f : t) : N :=
  match f with
  | Zero => GL_ZERO
  | One => GL_ONE
  | ConstantColor => GL_CONSTANT_COLOR
  | OneMinusConstantColor => GL_ONE_MINUS_CONSTANT_COLOR
  | ConstantAlpha => GL_CONSTANT_ALPHA
  | OneMinusConstantAlpha => GL_ONE_MINUS_CONSTANT_ALPHA
  | SourceColor => GL_SRC_COLOR
  | SecondSourceColor => GL_SRC1_COLOR
  | OneMinusSourceColor => GL_ONE_MINUS_SRC_COLOR
  | OneMinusSecondSourceColor => GL_ONE_MINUS_SRC1_COLOR
  | SourceAlpha => GL_SRC_ALPHA
  | SourceAlphaSaturate => GL_SRC_ALPHA_SATURATE
  | SecondSourceAlpha => GL_SRC1_ALPHA
  | OneMinusSourceAlpha => GL_ONE_MINUS_SRC_ALPHA
  | OneMinusSecondSourceAlpha => GL_ONE_MINUS_SRC1_ALPHA
  | DestinationColor => GL_DST_COLOR
  | OneMinusDestinationColor => GL_ONE_MINUS_DST_COLOR
  | DestinationAlpha => GL_DST_ALPHA
  | OneMinusDestinationAlpha => GL_ONE_MINUS_DST_ALPHA
  end.
End BlendFunction.

Inductive Call :=
| GlStencilMask (mask : GLuint)
| GlStencilMaskSeparate (face : GLenum) (mask : GLuint)
| GlBlendEquation (mode : GLenum)
| GlBlendEquationSeparate (modeRGB modeAlpha : GLenum)
| GlBlendFunc (sfactor dfactor : GLenum)
| GlBlendFuncSeparate (srcRGB dstRGB srcAlpha dstAlpha : GLenum).

Record State := mkState {
  stencilWritemaskFront : GLuint;
  stencilWritemaskBack : GLuint;
  blendEquationRgb : GLenum;
  blendEquationAlpha : GLenum;
  blendSrcRgb : GLenum;
  blendDstRgb : GLenum;
  blendSrcAlpha : GLenum;
  blendDstAlpha : GLenum;
  error : GLenum
}.

Definition set_stencil (front back : N) (s : State) : State :=
  mkState front back (blendEquationRgb s) (blendEquationAlpha s)
          (blendSrcRgb s) (blendDstRgb s) (blendSrcAlpha s) (blendDstAlpha s) (error s).

Definition set_equation (rgb alpha : N) (s : State) : State :=
  mkState (stencilWritemaskFront s) (stencilWritemaskBack s) rgb alpha
          (blendSrcRgb s) (blendDstRgb s) (blendSrcAlpha s) (blendDstAlpha s) (error s).

Definition set_function (srcRGB dstRGB srcAlpha dstAlpha : N) (s : State) : State :=
  mkState (stencilWritemaskFront s) (stencilWritemaskBack s)
          (blendEquationRgb s) (blendEquationAlpha s)
          srcRGB dstRGB srcAlpha dstAlpha (error s).

Definition fail (e : N) (s : State) : State :=
  if (error s =? GL_NO_ERROR)%N
  then mkState (stencilWritemaskFront s) (stencilWritemaskBack s)
               (blendEquationRgb s) (blendEquationAlpha s)
               (blendSrcRgb s) (blendDstRgb s) (blendSrcAlpha s) (blendDstAlpha s) e
  else s.

(** One native call: the joint forms set the RGB and the alpha (the front
    and the back) value together, the separate forms each on its own. *)
Definition gl_exec (c : Call) (s : State) : State :=
  match c with
  | GlStencilMask mask => set_stencil mask mask s
  | GlStencilMaskSeparate face mask =>
      if (face =? GL_FRONT)%N then set_stencil mask (stencilWritemaskBack s) s
      else if (face =? GL_BACK)%N then set_stencil (stencilWritemaskFront s) mask s
      else if (face =? GL_FRONT_AND_BACK)%N then set_stencil mask mask s
      else fail GL_INVALID_ENUM s
  | GlBlendEquation mode => set_equation mode mode s
  | GlBlendEquationSeparate modeRGB modeAlpha => set_equation modeRGB modeAlpha s
  | GlBlendFunc sfactor dfactor => set_function sfactor dfactor sfactor dfactor s
  | GlBlendFuncSeparate srcRGB dstRGB srcAlpha dstAlpha =>
      set_function srcRGB dstRGB srcAlpha dstAlpha s
  end.

Record World := mkWorld { state : State; issued : list Call }.

Definition native (c : Call) (w : World) : World :=
  {| state := gl_exec c (state w); issued := issued w ++ [c] |}.

(** [glStencilMask(allowBits);] *)
Definition setStencilMask (allowBits : GLuint) : World → World :=
  native (GlStencilMask allowBits).

(** [glStencilMaskSeparate(static_cast<GLenum>(face), allowBits);] *)
Definition setStencilMask_face (face : StencilMaskFace.t) (allowBits : GLuint)
    : World → World :=
  native (GlStencilMaskSeparate (StencilMaskFace.value face) allowBits).

(** [glBlendEquation(static_cast<GLenum>(equation));] *)
Definition setBlendEquation (equation : BlendEquation.t) : World → World :=
  native (GlBlendEquation (BlendEquation.value equation)).

(** [glBlendEquationSeparate(static_cast<GLenum>(rgb), static_cast<GLenum>(alpha));] *)
Definition setBlendEquation_separate (rgb alpha : BlendEquation.t) : World → World :=
  native (GlBlendEquationSeparate (BlendEquation.value rgb) (BlendEquation.value alpha)).

(** [glBlendFunc(static_cast<GLenum>(source), static_cast<GLenum>(destination));] *)
Definition setBlendFunction (source destination : BlendFunction.t) : World → World :=
  native (GlBlendFunc (BlendFunction.value source) (BlendFunction.value destination)).

Definition setBlendFunction_separate
    (sourceRgb destinationRgb sourceAlpha destinationAlpha : BlendFunction.t)
    : World → World :=
  native (GlBlendFuncSeparate (BlendFunction.value sourceRgb)
            (BlendFunction.value destinationRgb)
            (BlendFunction.value sourceAlpha) (BlendFunction.value destinationAlpha)).

End Pipeline.

(** * Properties *)

(** ** Running the monad *)

Lemma run_native c w :
  run (native c) w =
  {| gl := gl_exec c (gl w); clearMask := clearMask w; calls := calls w ++ [c] |}.
Proof. reflexivity. Qed.

Lemma gl_run_native c w : gl (run (native c) w) = gl_exec c (gl w).
Proof. reflexivity. Qed.

Lemma calls_run_native c w : calls (run (native c) w) = calls w ++ [c].
Proof. reflexivity. Qed.

Lemma run_seq {A B} (m : GL A) (k : GL B) w :
  run (m ;; k) w = run k (run m w).
Proof. unfold run, mbind, GL_bind. by destruct (m w). Qed.

Lemma target_roles_value t :
  target_roles (Target.value t) = Some (covers t ReadRole, covers t DrawRole).
Proof. by destruct t. Qed.

Lemma addressed_value t s :
  addressed (Target.value t) s =
  Some (match t with Target.Read => readFramebuffer s | _ => drawFramebuffer s end).
Proof. by destruct t. Qed.

Lemma is_name_live fb w : live fb w → is_name (framebuffer fb) (gl w) = true.
Proof.
  intros [_ Hin]. unfold is_name. rewrite (bool_decide_eq_true_2 _ Hin).
  apply orb_true_r.
Qed.

(** The bindings after a successful native bind. *)
Lemma bound_glBindFramebuffer t fb s r :
  is_name fb s = true →
  bound r (glBindFramebuffer (Target.value t) fb s) =
  if covers t r then fb else bound r s.
Proof.
  intros Hn. unfold glBindFramebuffer. rewrite target_roles_value, Hn.
  by destruct t, r.
Qed.

(** ** Bits of a clear mask *)

Lemma mask_names_lor x y c :
  mask_names (N.lor x y) c = mask_names x c || mask_names y c.
Proof.
  unfold mask_names. rewrite N.land_lor_distr_l.
  destruct (N.eqb_spec (N.land x (Clear.value c)) 0) as [Hx|Hx];
    destruct (N.eqb_spec (N.land y (Clear.value c)) 0) as [Hy|Hy]; simpl;
    destruct (N.eqb_spec (N.lor (N.land x (Clear.value c)) (N.land y (Clear.value c))) 0)
      as [H|H]; try reflexivity; exfalso.
  - apply H. apply N.lor_eq_0_iff. done.
  - apply N.lor_eq_0_iff in H. tauto.
  - apply N.lor_eq_0_iff in H. tauto.
  - apply N.lor_eq_0_iff in H. tauto.
Qed.

Lemma mask_names_value a c : mask_names (Clear.value a) c = true ↔ a = c.
Proof. destruct a, c; vm_compute; split; congruence. Qed.

Lemma mask_names_of cs c : mask_names (ClearMask_of cs) c = true ↔ c ∈ cs.
Proof.
  induction cs as [|a cs IH]; simpl.
  - split; [discriminate | intros H; inversion H].
  - rewrite mask_names_lor, orb_true_iff, mask_names_value, IH, elem_of_cons.
    split; intros [H|H]; auto.
Qed.

Lemma elem_of_cleared_planes mask c : c ∈ cleared_planes mask ↔ mask_names mask c = true.
Proof.
  unfold cleared_planes. rewrite list_elem_of_filter. split; [tauto|].
  intros H; split; [done|]. unfold Clear.all. destruct c; set_solver.
Qed.

Lemma elem_of_clears mask s fb c :
  (fb, c) ∈ clears (GlClear mask) s ↔ fb = drawFramebuffer s ∧ mask_names mask c = true.
Proof.
  simpl. rewrite list_elem_of_fmap. setoid_rewrite elem_of_cleared_planes. split.
  - intros (p & Heq & Hp). by simplify_eq.
  - intros [-> Hp]. by exists c.
Qed.

(** ** Clearing with an explicit mask *)

(** C5.  For every combination [cs] of [Color], [Depth], [Stencil] and
    every state, [clear(mask)] issues exactly one native clear carrying that
    mask and changes nothing else; the planes it clears are exactly those
    named in [cs], all of them on the framebuffer currently bound for
    drawing; and this does not depend on which features are enabled. *)
Theorem clear_mask_clears_exactly_the_mask (cs : list Clear.t) (w : World) :
  let mask := ClearMask_of cs in
  let w' := run (clear_mask mask) w in
  calls w' = calls w ++ [GlClear mask]
  ∧ gl w' = gl w
  ∧ clearMask w' = clearMask w
  ∧ (∀ fb c, (fb, c) ∈ clears (GlClear mask) (gl w) ↔ fb = drawFramebuffer (gl w) ∧ c ∈ cs)
  ∧ (∀ e, clears (GlClear mask) (set_enabled e (gl w)) = clears (GlClear mask) (gl w)).
Proof.
  cbv zeta. split_and!; try reflexivity.
  intros fb c. by rewrite elem_of_clears, mask_names_of.
Qed.

(** ** Blitting *)

(** C3.  The two-argument [blit(rect, mask)] is the same computation as the
    general [blit(rect, rect, mask, NearestNeighbor)]: on every state both
    issue the same single native blit, so whatever the native layer copies
    is copied identically. *)
Theorem blit_same_is_blit_nearest (bottomLeft topRight : Vector2) (blitMask : N) (w : World) :
  blit_same bottomLeft topRight blitMask w
  = blit bottomLeft topRight bottomLeft topRight blitMask Filter_NearestNeighbor w
  ∧ calls (run (blit_same bottomLeft topRight blitMask) w)
    = calls w ++ [GlBlitFramebuffer (vx bottomLeft) (vy bottomLeft) (vx topRight) (vy topRight)
                    (vx bottomLeft) (vy bottomLeft) (vx topRight) (vy topRight)
                    blitMask GL_NEAREST].
Proof. split; reflexivity. Qed.

(** ** Forwarding without validation *)

Lemma wrap32_recover n :
  wrap32 (wrap32 (GL_COLOR_ATTACHMENT0 + wrap32 n) + (2 ^ 32 - GL_COLOR_ATTACHMENT0)) = wrap32 n.
Proof.
  unfold wrap32, GL_COLOR_ATTACHMENT0.
  rewrite N.Div0.add_mod_idemp_l.
  replace (0x8CE0 + n mod 2 ^ 32 + (2 ^ 32 - 0x8CE0))%N
    with (n mod 2 ^ 32 + 1 * 2 ^ 32)%N by lia.
  rewrite N.Div0.mod_add. apply N.Div0.mod_mod.
Qed.

(** C7.  Blit, read and the mapping calls pass their arguments on as given,
    for every input: each call below issues its native call(s) with the
    caller's values in place, whatever they are (negative or empty
    rectangles, slot indices beyond the maximum).  The slot index of
    [mapForRead] reaches the native layer as the 32-bit sum
    [GL_COLOR_ATTACHMENT0 + n], from which [n] is recovered by subtracting
    the base: nothing is clamped or rejected. *)
Theorem parameters_are_forwarded (w : World) :
  (∀ bl tr dbl dtr mask filter,
      calls (run (blit bl tr dbl dtr mask filter) w)
      = calls w ++ [GlBlitFramebuffer (vx bl) (vy bl) (vx tr) (vy tr)
                      (vx dbl) (vy dbl) (vx dtr) (vy dtr) mask filter])
  ∧ (∀ bl tr mask,
      calls (run (blit_same bl tr mask) w)
      = calls w ++ [GlBlitFramebuffer (vx bl) (vy bl) (vx tr) (vy tr)
                      (vx bl) (vy bl) (vx tr) (vy tr) mask GL_NEAREST])
  ∧ (∀ this n,
      calls (run (mapForRead this n) w)
      = calls w ++ [GlBindFramebuffer GL_READ_FRAMEBUFFER (framebuffer this);
                    GlReadBuffer (wrap32 (GL_COLOR_ATTACHMENT0 + n))])
  ∧ (∀ n, wrap32 (wrap32 (GL_COLOR_ATTACHMENT0 + wrap32 n) + (2 ^ 32 - GL_COLOR_ATTACHMENT0))
          = wrap32 n)
  ∧ (∀ a,
      calls (run (mapDefaultForRead a) w)
      = calls w ++ [GlBindFramebuffer GL_READ_FRAMEBUFFER 0;
                    GlReadBuffer (DefaultReadAttachment.value a)])
  ∧ (∀ offset dims components type,
      calls (run (read offset dims components type) w)
      = calls w ++ [GlReadPixels (vx offset) (vy offset) (vx dims) (vy dims) components type])
  ∧ (∀ offset dims components type usage,
      calls (run (read_buffered offset dims components type usage) w)
      = calls w ++ [GlReadPixels (vx offset) (vy offset) (vx dims) (vy dims) components type])
  ∧ (∀ offset dims components type usage,
      (read offset dims components type w).1
      = {| img_dimensions := dims; img_components := components;
           img_type := type; img_usage := None |}
      ∧ (read_buffered offset dims components type usage w).1
        = {| img_dimensions := dims; img_components := components;
             img_type := type; img_usage := Some usage |})
  ∧ (∀ outputs,
      calls (run (mapDefaultForDraw outputs) w)
      = calls w ++ [GlBindFramebuffer GL_DRAW_FRAMEBUFFER 0;
                    GlDrawBuffers (map DefaultDrawAttachment.value outputs)])
  ∧ (∀ this slots,
      calls (run (mapForDraw this slots) w)
      = calls w ++ [GlBindFramebuffer GL_DRAW_FRAMEBUFFER (framebuffer this);
                    GlDrawBuffers
                      (map (λ i, if (i =? -1)%Z then GL_NONE
                                 else Z.to_N ((Z.of_N GL_COLOR_ATTACHMENT0 + i) mod 2 ^ 32))
                           slots)]).
Proof.
  split_and!; intros; try reflexivity.
  - unfold mapForRead, bind. rewrite run_seq, !run_native. simpl.
    by rewrite <- app_assoc.
  - apply wrap32_recover.
  - unfold mapDefaultForRead, bindDefault. rewrite run_seq, !run_native. simpl.
    by rewrite <- app_assoc.
  - by split.
  - unfold mapDefaultForDraw, bindDefault. rewrite run_seq, !run_native. simpl.
    by rewrite <- app_assoc.
  - unfold mapForDraw, bind. rewrite run_seq, !run_native. simpl.
    by rewrite <- app_assoc.
Qed.

(** Slot index 32 is beyond the documented range and is passed on all the
    same: it reaches the native layer as the depth attachment point. *)
Example mapForRead_slot_32 :
  calls (run (mapForRead {| framebuffer := 1 |} 32) initial)
  = [GlBindFramebuffer GL_READ_FRAMEBUFFER 1; GlReadBuffer GL_DEPTH_ATTACHMENT].
Proof. reflexivity. Qed.

(** A rectangle with negative extent is passed on as given. *)
Example blit_negative_rectangle :
  calls (run (blit {| vx := 5; vy := 5 |} {| vx := -3; vy := 0 |}
                   {| vx := 0; vy := 0 |} {| vx := 0; vy := 0 |}
                   (BlitMask_of [Blit.Color]) GL_LINEAR) initial)
  = [GlBlitFramebuffer 5 5 (-3) 0 0 0 0 0 GL_COLOR_BUFFER_BIT GL_LINEAR].
Proof. reflexivity. Qed.

(** ** Attaching *)

Lemma attach_unfold this c w :
  run (attach this c) w = run (native (attach_call c)) (run (bind this (attach_target c)) w).
Proof. destruct c; apply run_seq. Qed.

Lemma gl_exec_attach_call c s :
  gl_exec (attach_call c) s
  = attach_native (Target.value (attach_target c)) (attach_slot c)
      (object_or_none (attach_resource c).1 (attach_resource c).2) s.
Proof. by destruct c. Qed.

Lemma bound_raise r e s : bound r (raise e s) = bound r s.
Proof. unfold raise. by destruct (glError s =? GL_NO_ERROR)%N, r. Qed.

Lemma names_raise e s : names (raise e s) = names s.
Proof. unfold raise. by destruct (glError s =? GL_NO_ERROR)%N. Qed.

Lemma bound_attach_native r t a x s : bound r (attach_native t a x s) = bound r s.
Proof.
  unfold attach_native. destruct (addressed t s) as [fb|]; [|apply bound_raise].
  destruct (fb =? 0)%N; [apply bound_raise|].
  destruct (attachment_points a); [apply bound_raise|]. by destruct r.
Qed.

Lemma names_attach_native t a x s : names (attach_native t a x s) = names s.
Proof.
  unfold attach_native. destruct (addressed t s) as [fb|]; [|apply names_raise].
  destruct (fb =? 0)%N; [apply names_raise|].
  by destruct (attachment_points a); [apply names_raise|].
Qed.

Lemma names_glBindFramebuffer t fb s : names (glBindFramebuffer t fb s) = names s.
Proof.
  unfold glBindFramebuffer. destruct (target_roles t) as [[r d]|]; [|apply names_raise].
  by destruct (is_name fb s); [|apply names_raise].
Qed.

Lemma gl_run_bind this t w :
  gl (run (bind this t) w) = glBindFramebuffer (Target.value t) (framebuffer this) (gl w).
Proof. reflexivity. Qed.

(** After binding a live framebuffer to a role target, that framebuffer is
    what a native call on the target addresses. *)
Lemma addressed_after_bind this t w :
  live this w →
  addressed (Target.value t) (gl (run (bind this t) w)) = Some (framebuffer this).
Proof.
  intros Hl. rewrite gl_run_bind.
  unfold glBindFramebuffer. rewrite target_roles_value, (is_name_live _ _ Hl).
  by destruct t.
Qed.

Lemma bound_after_bind this t w r :
  live this w →
  bound r (gl (run (bind this t) w)) = if covers t r then framebuffer this else bound r (gl w).
Proof.
  intros Hl. rewrite gl_run_bind.
  apply bound_glBindFramebuffer, is_name_live, Hl.
Qed.

Lemma bound_after_attach this c w r :
  live this w →
  bound r (gl (run (attach this c) w))
  = if covers (attach_target c) r then framebuffer this else bound r (gl w).
Proof.
  intros Hl. rewrite attach_unfold, gl_run_native, gl_exec_attach_call, bound_attach_native.
  by apply bound_after_bind.
Qed.

Lemma live_after_attach this fb c w : live fb w → live fb (run (attach this c) w).
Proof.
  intros [Hz Hin]. split; [done|].
  by rewrite attach_unfold, gl_run_native, gl_exec_attach_call, names_attach_native,
    gl_run_bind, names_glBindFramebuffer.
Qed.

(** C2.  Every attach overload, on every state (whatever was bound before,
    by whichever target), first binds the framebuffer it is invoked on to
    the given role target and then issues the native attach on that same
    role target: the call is the bind followed by the native attach on the
    state the bind produced, exactly these two native calls are issued in
    this order, and at the moment the native attach executes the
    framebuffer it addresses is the one the call was invoked on. *)
Theorem attach_binds_first (this : Framebuffer) (c : AttachCall) (w : World) :
  live this w →
  let target := attach_target c in
  let w1 := run (bind this target) w in
  run (attach this c) w = run (native (attach_call c)) w1
  ∧ calls (run (attach this c) w)
    = calls w ++ [GlBindFramebuffer (Target.value target) (framebuffer this); attach_call c]
  ∧ gl_exec (attach_call c) (gl w1)
    = attach_native (Target.value target) (attach_slot c)
        (object_or_none (attach_resource c).1 (attach_resource c).2) (gl w1)
  ∧ addressed (Target.value target) (gl w1) = Some (framebuffer this)
  ∧ current target w1 = framebuffer this.
Proof.
  intros Hl target w1. split_and!.
  - apply attach_unfold.
  - rewrite attach_unfold. unfold w1, bind. rewrite !run_native. simpl.
    by rewrite <- app_assoc.
  - apply gl_exec_attach_call.
  - by apply addressed_after_bind.
  - pose proof (addressed_after_bind this target w Hl) as H.
    rewrite addressed_value in H. fold w1 in H. unfold current. by destruct target; simplify_eq.
Qed.

(** C10.  The implicit bind is not undone.  After any attach overload on a
    live framebuffer returns, that framebuffer is the one bound for the
    role target the call was given (and any binding point the target does
    not cover is as before); after [mapForRead] it is the Read-bound one;
    after [mapDefaultForRead] the default framebuffer is. *)
Theorem implicit_bind_persists (this : Framebuffer) (w : World) :
  live this w →
  (∀ c, current (attach_target c) (run (attach this c) w) = framebuffer this)
  ∧ (∀ c r, bound r (gl (run (attach this c) w))
            = if covers (attach_target c) r then framebuffer this else bound r (gl w))
  ∧ (∀ n r, bound r (gl (run (mapForRead this n) w))
            = if covers Target.Read r then framebuffer this else bound r (gl w))
  ∧ (∀ a r, bound r (gl (run (mapDefaultForRead a) w))
            = if covers Target.Read r then 0%N else bound r (gl w)).
Proof.
  intros Hl. split_and!.
  - intros c. pose proof (bound_after_attach this c w ReadRole Hl) as Hr.
    pose proof (bound_after_attach this c w DrawRole Hl) as Hd.
    unfold current. by destruct (attach_target c).
  - intros c r. by apply bound_after_attach.
  - intros n r. unfold mapForRead. rewrite run_seq, gl_run_native.
    rewrite <- (bound_after_bind this Target.Read w r Hl). by destruct r.
  - intros a r. unfold mapDefaultForRead, bindDefault. rewrite run_seq, !gl_run_native.
    by destruct r.
Qed.

(** ** Attach, then query *)

Lemma slot_color_valid n :
  (n < maxColorAttachments)%N → slot_color n = (GL_COLOR_ATTACHMENT0 + n)%N.
Proof.
  unfold slot_color, wrap32, maxColorAttachments, GL_COLOR_ATTACHMENT0. intros Hn.
  apply N.mod_small. lia.
Qed.

Lemma attachment_points_color n :
  (n < maxColorAttachments)%N →
  attachment_points (GL_COLOR_ATTACHMENT0 + n) = [(GL_COLOR_ATTACHMENT0 + n)%N].
Proof.
  unfold attachment_points, maxColorAttachments, GL_COLOR_ATTACHMENT0,
    GL_DEPTH_STENCIL_ATTACHMENT, GL_DEPTH_ATTACHMENT, GL_STENCIL_ATTACHMENT.
  intros Hn.
  destruct (N.eqb_spec (0x8CE0 + n) 0x821A); [lia|].
  destruct (N.eqb_spec (0x8CE0 + n) 0x8D00); [lia|].
  destruct (N.eqb_spec (0x8CE0 + n) 0x8D20); [lia|]. simpl orb. cbv iota.
  destruct (N.leb_spec 0x8CE0 (0x8CE0 + n)); [|lia].
  destruct (N.ltb_spec (0x8CE0 + n) (0x8CE0 + 16)); [|lia]. reflexivity.
Qed.

Lemma attach_slot_color c n : attach_color_index c = Some n → attach_slot c = slot_color n.
Proof. destruct c; simpl; congruence. Qed.

(** C6.  For every colour overload of attach, every valid slot index
    [n < 16] and every resource (non-zero object name), attaching to slot
    [n] of a live render target and then querying that slot returns
    exactly the resource reference that was attached; attaching the same
    resource again changes nothing about that. *)
Theorem attach_then_query_color_slot
    (this : Framebuffer) (c : AttachCall) (n : N) (w : World) :
  live this w →
  attach_color_index c = Some n →
  (n < maxColorAttachments)%N →
  (attach_resource c).1 ≠ 0%N →
  color_slot this n (run (attach this c) w) = Some (attach_resource c).2
  ∧ color_slot this n (run (attach this c) (run (attach this c) w))
    = Some (attach_resource c).2.
Proof.
  intros Hl Hc Hn Hres.
  assert (∀ w0, live this w0 →
            color_slot this n (run (attach this c) w0) = Some (attach_resource c).2) as Hone.
  { intros w0 Hl0. unfold color_slot.
    rewrite attach_unfold, gl_run_native, gl_exec_attach_call.
    unfold attach_native. rewrite (addressed_after_bind _ _ _ Hl0).
    destruct Hl0 as [Hz _]. apply N.eqb_neq in Hz. rewrite Hz.
    rewrite (attach_slot_color _ _ Hc), (slot_color_valid _ Hn),
      (attachment_points_color _ Hn).
    unfold object_or_none. apply N.eqb_neq in Hres. rewrite Hres. simpl.
    apply lookup_partial_alter_eq. }
  split; [by apply Hone|]. apply Hone. by apply live_after_attach.
Qed.

(** ** Binding *)

Lemma exec_all_app ops1 ops2 w : exec_all (ops1 ++ ops2) w = exec_all ops2 (exec_all ops1 w).
Proof. apply foldl_app. Qed.

Lemma exec_all_cons o ops w : exec_all (o :: ops) w = exec_all ops (exec o w).
Proof. reflexivity. Qed.

Lemma gl_exec_bind_op b w :
  gl (exec (bind_op b) w) = glBindFramebuffer (Target.value (bind_target b)) (bind_name b) (gl w).
Proof. by destruct b. Qed.

Lemma is_name_glBindFramebuffer t fb s x :
  is_name x (glBindFramebuffer t fb s) = is_name x s.
Proof. unfold is_name. by rewrite names_glBindFramebuffer. Qed.

Lemma bound_exec_bind_op b w r :
  is_name (bind_name b) (gl w) = true →
  bound r (gl (exec (bind_op b) w))
  = if covers (bind_target b) r then bind_name b else bound r (gl w).
Proof. intros Hn. rewrite gl_exec_bind_op. by apply bound_glBindFramebuffer. Qed.

Lemma is_name_exec_binds bs w x :
  is_name x (gl (exec_all (map bind_op bs) w)) = is_name x (gl w).
Proof.
  revert w. induction bs as [|b bs IH]; intros w; [done|]. cbn [map].
  by rewrite exec_all_cons, IH, gl_exec_bind_op, is_name_glBindFramebuffer.
Qed.

Lemma bound_exec_binds bs w r :
  Forall (λ b, is_name (bind_name b) (gl w) = true) bs →
  bound r (gl (exec_all (map bind_op bs) w)) = last_bound r bs (bound r (gl w)).
Proof.
  revert w. induction bs as [|b bs IH]; intros w Hbs; [done|].
  apply Forall_cons in Hbs as [Hb Hbs]. cbn [map]. rewrite exec_all_cons, IH.
  - by rewrite bound_exec_bind_op.
  - eapply Forall_impl; [exact Hbs|]. intros b' Hb'. cbv beta in *.
    by rewrite gl_exec_bind_op, is_name_glBindFramebuffer.
Qed.

(** C4.  For any sequence of [bind] / [bindDefault] calls on names that may
    be bound (the default target, or live framebuffers): each binding point
    ends up holding the name of the last call whose role target covers it,
    and what it held before if there is none.  Step by step: a call makes
    its framebuffer (the default one for [bindDefault]) the binding of the
    role it is given, replacing the previous one, and leaves a binding
    point its role target does not cover exactly as it was; in particular
    [Read] and [Draw] do not disturb each other. *)
Theorem bind_replaces_only_its_role (bs : list BindOp) (w : World) :
  Forall (λ b, is_name (bind_name b) (gl w) = true) bs →
  (∀ r, bound r (gl (exec_all (map bind_op bs) w)) = last_bound r bs (bound r (gl w)))
  ∧ (∀ bs0 b r, bs = bs0 ++ [b] →
       bound r (gl (exec_all (map bind_op bs) w))
       = if covers (bind_target b) r then bind_name b
         else bound r (gl (exec_all (map bind_op bs0) w)))
  ∧ covers Target.Read DrawRole = false ∧ covers Target.Draw ReadRole = false
  ∧ covers Target.Read ReadRole = true ∧ covers Target.Draw DrawRole = true.
Proof.
  intros Hbs. split_and!; try reflexivity.
  - intros r. by apply bound_exec_binds.
  - intros bs0 b r ->. rewrite map_app, exec_all_app. cbn [map].
    rewrite exec_all_cons. change (exec_all [] ?x) with x.
    apply bound_exec_bind_op. rewrite is_name_exec_binds.
    rewrite Forall_app, Forall_singleton in Hbs. by destruct Hbs as [_ Hb].
Qed.

(** ** Construction, lifetime and destruction *)

(** Every operation appends the native calls it issues, and the native
    state is the replay of those calls. *)
Lemma exec_issues o w :
  ∃ l, calls (exec o w) = calls w ++ l
       ∧ gl (exec o w) = replay l (gl w)
       ∧ Forall (from_op o) l
       ∧ ∀ prev, bind_precedes prev l = true.
Proof.
  destruct o as [f b| |m|c|d|v| |fb|t|fb t|l|fb l|a|fb n|fb c|a b c d m f|a b m|o d c t|o d c t u].
  - exists [if b then GlEnable (Feature.value f) else GlDisable (Feature.value f)].
    split_and!; [by destruct f|by destruct f| |by destruct b].
    apply Forall_singleton. destruct b; by exists f.
  - by exists [GlClear (clearMask w)]; split_and!; [..|repeat constructor|].
  - by exists [GlClear m]; split_and!; [..|repeat constructor|].
  - by exists [GlClearColor (cr c) (cg c) (cb c) (ca c)]; split_and!; [..|repeat constructor|].
  - by exists [GlClearDepthf d]; split_and!; [..|repeat constructor|].
  - by exists [GlClearStencil v]; split_and!; [..|repeat constructor|].
  - by exists [GlGenFramebuffers 1]; split_and!; [..|repeat constructor|].
  - exists [GlDeleteFramebuffers [framebuffer fb]]. split_and!; try done.
    apply Forall_singleton. by exists fb.
  - by exists [GlBindFramebuffer (Target.value t) 0]; split_and!; [..|repeat constructor|].
  - by exists [GlBindFramebuffer (Target.value t) (framebuffer fb)];
      split_and!; [..|repeat constructor|].
  - exists [GlBindFramebuffer GL_DRAW_FRAMEBUFFER 0;
            GlDrawBuffers (map DefaultDrawAttachment.value l)].
    split_and!; [simpl; by rewrite <- app_assoc|done|by repeat constructor|done].
  - eexists [GlBindFramebuffer GL_DRAW_FRAMEBUFFER (framebuffer fb); GlDrawBuffers _].
    split_and!; [simpl; by rewrite <- app_assoc|done|by repeat constructor|done].
  - exists [GlBindFramebuffer GL_READ_FRAMEBUFFER 0;
            GlReadBuffer (DefaultReadAttachment.value a)].
    split_and!; [simpl; by rewrite <- app_assoc|done|by repeat constructor|done].
  - exists [GlBindFramebuffer GL_READ_FRAMEBUFFER (framebuffer fb);
            GlReadBuffer (wrap32 (GL_COLOR_ATTACHMENT0 + n))].
    split_and!; [simpl; by rewrite <- app_assoc|done|by repeat constructor|done].
  - exists [GlBindFramebuffer (Target.value (attach_target c)) (framebuffer fb); attach_call c].
    cbn [exec]. rewrite attach_unfold. split_and!.
    + rewrite calls_run_native. unfold bind. by rewrite calls_run_native, <- app_assoc.
    + by rewrite gl_run_native, gl_run_bind.
    + repeat constructor. by destruct c.
    + intros prev. destruct c; simpl; by rewrite N.eqb_refl.
  - by eexists [GlBlitFramebuffer _ _ _ _ _ _ _ _ _ _]; split_and!; [..|repeat constructor|].
  - by eexists [GlBlitFramebuffer _ _ _ _ _ _ _ _ _ _]; split_and!; [..|repeat constructor|].
  - by eexists [GlReadPixels _ _ _ _ _ _]; split_and!; [..|repeat constructor|].
  - by eexists [GlReadPixels _ _ _ _ _ _]; split_and!; [..|repeat constructor|].
Qed.



Lemma release_count_app name l1 l2 :
  release_count name (l1 ++ l2) = release_count name l1 + release_count name l2.
Proof. induction l1 as [|c l1 IH]; simpl; [done|]. rewrite IH. lia. Qed.

Lemma fresh_name_spec s : fresh_name s ≠ 0%N ∧ fresh_name s ∉ names s.
Proof.
  unfold fresh_name. pose proof (is_fresh ({[0%N]} ∪ names s)) as H. set_solver.
Qed.

Lemma names_gen_one s : names (gen_one s) = {[fresh_name s]} ∪ names s.
Proof. reflexivity. Qed.

Lemma names_glGenFramebuffers n s x : x ∈ names s → x ∈ names (glGenFramebuffers n s).
Proof.
  unfold glGenFramebuffers. induction (Z.to_nat n) as [|k IH]; intros Hx; [done|].
  rewrite Nat.iter_succ, names_gen_one. set_solver.
Qed.

Lemma names_delete_one fb s x :
  x ≠ fb → x ∈ names s → x ∈ names (delete_one fb s).
Proof.
  intros Hne Hx. unfold delete_one.
  destruct (is_name fb s && negb (fb =? 0)%N); [simpl; set_solver|done].
Qed.

Lemma names_glDeleteFramebuffers fbs s x :
  Forall (λ fb, fb ≠ x) fbs → x ∈ names s → x ∈ names (glDeleteFramebuffers fbs s).
Proof.
  unfold glDeleteFramebuffers. revert s.
  induction fbs as [|fb fbs IH]; intros s Hall Hx; [done|].
  apply Forall_cons in Hall as [Hfb Hall]. simpl. apply IH; [done|].
  by apply names_delete_one.
Qed.

Lemma releases_none (name : N) (fbs : list N) :
  length (filter (λ fb, fb = name) fbs) = 0 → Forall (λ fb, fb ≠ name) fbs.
Proof.
  induction fbs as [|fb fbs IH]; [constructor|].
  rewrite filter_cons. destruct (decide (fb = name)); [discriminate|].
  intros H. constructor; auto.
Qed.

(** A native call that does not release a name leaves it generated. *)
Lemma names_gl_exec_keeps name c s :
  releases name c = 0 → name ∈ names s → name ∈ names (gl_exec c s).
Proof.
  intros Hrel Hin. destruct c; simpl; try done.
  - by apply names_glGenFramebuffers.
  - apply names_glDeleteFramebuffers; [|done]. by apply releases_none.
  - by rewrite names_glBindFramebuffer.
  - by rewrite names_attach_native.
  - by rewrite names_attach_native.
  - by rewrite names_attach_native.
  - by rewrite names_attach_native.
Qed.

Lemma names_replay_keeps name l s :
  release_count name l = 0 → name ∈ names s → name ∈ names (replay l s).
Proof.
  revert s. induction l as [|c l IH]; intros s Hrel Hin; [done|].
  simpl in Hrel. apply IH; [lia|]. apply names_gl_exec_keeps; [lia|done].
Qed.

Lemma from_op_releases o fb l :
  o ≠ OpDelete fb → Forall (from_op o) l → release_count (framebuffer fb) l = 0.
Proof.
  intros Ho. induction 1 as [|c l Hc _ IH]; [done|]. simpl. rewrite IH.
  destruct c; try done. simpl.
  destruct Hc as (fb' & -> & ->).
  rewrite filter_cons. destruct (decide (framebuffer fb' = framebuffer fb)) as [Heq|]; [|done].
  destruct fb, fb'. simpl in Heq. by subst.
Qed.

(** Between construction and destruction the handle stays generated, and
    no operation other than the object's destructor releases it. *)
Lemma lifetime fb ops w :
  Forall (λ o, o ≠ OpDelete fb) ops →
  live fb w →
  live fb (exec_all ops w)
  ∧ release_count (framebuffer fb) (calls (exec_all ops w))
    = release_count (framebuffer fb) (calls w).
Proof.
  revert w. induction ops as [|o ops IH]; intros w Hall Hl; [done|].
  apply Forall_cons in Hall as [Ho Hall]. rewrite exec_all_cons.
  destruct (exec_issues o w) as (l & Hcalls & Hgl & Hfrom & _).
  pose proof (from_op_releases _ _ _ Ho Hfrom) as Hrel.
  destruct (IH (exec o w) Hall) as [Hl' Hcount].
  - destruct Hl as [Hz Hin]. split; [done|]. rewrite Hgl. by apply names_replay_keeps.
  - split; [done|]. rewrite Hcount, Hcalls, release_count_app. lia.
Qed.

Lemma run_Framebuffer_new w :
  run Framebuffer_new w = run (native (GlGenFramebuffers 1)) w.
Proof. reflexivity. Qed.

Lemma gl_run_delete fb w :
  gl (run (Framebuffer_delete fb) w) = delete_one (framebuffer fb) (gl w).
Proof. reflexivity. Qed.

(** What deleting a live name does to the native state. *)
Lemma delete_one_live fb s :
  fb ≠ 0%N → fb ∈ names s →
  names (delete_one fb s) = names s ∖ {[fb]}
  ∧ (∀ r, bound r (delete_one fb s) = if decide (bound r s = fb) then 0%N else bound r s)
  ∧ (∀ other slot, other ≠ fb →
       attachments (delete_one fb s) !! (other, slot) = attachments s !! (other, slot)).
Proof.
  intros Hz Hin. unfold delete_one, is_name.
  rewrite (bool_decide_eq_true_2 _ Hin), orb_true_r.
  apply N.eqb_neq in Hz. rewrite Hz. simpl. split_and!; [done| |].
  - intros [|]; simpl; case_decide as H.
    + apply N.eqb_eq in H. by rewrite H.
    + apply N.eqb_neq in H. by rewrite H.
    + apply N.eqb_eq in H. by rewrite H.
    + apply N.eqb_neq in H. by rewrite H.
  - intros other slot Hne. rewrite map_lookup_filter.
    destruct (attachments s !! (other, slot)); simpl; [|done].
    by rewrite option_guard_True.
Qed.

(** C8.  A render target from construction to destruction, in any state
    and with any operations in between (on this or any other target, none
    of them this object's destructor).  Construction issues one native
    generate call and yields one handle, new and non-zero, without touching
    the bindings.  The handle stays generated throughout.  Destruction
    issues one native delete call naming that handle, which is the only
    release of it since construction, whatever is bound at that moment;
    afterwards every other name is generated exactly as before, a binding
    point that held another target (or the default one) holds it still, a
    binding point that held the destroyed target holds the default one, and
    the attachments of other targets are as they were. *)
Theorem handle_allocated_once_released_once (w : World) (ops : list Op) :
  Forall (λ o, o ≠ OpDelete (Framebuffer_new w).1) ops →
  let fb := (Framebuffer_new w).1 in
  let w1 := run Framebuffer_new w in
  let w2 := exec_all ops w1 in
  let w3 := run (Framebuffer_delete fb) w2 in
  (calls w1 = calls w ++ [GlGenFramebuffers 1]
   ∧ (framebuffer fb ∉ names (gl w))
   ∧ names (gl w1) = {[framebuffer fb]} ∪ names (gl w)
   ∧ (∀ r, bound r (gl w1) = bound r (gl w))
   ∧ live fb w1)
  ∧ live fb w2
  ∧ (calls w3 = calls w2 ++ [GlDeleteFramebuffers [framebuffer fb]]
     ∧ release_count (framebuffer fb) (calls w3)
       = S (release_count (framebuffer fb) (calls w))
     ∧ names (gl w3) = names (gl w2) ∖ {[framebuffer fb]}
     ∧ (∀ r, bound r (gl w3)
             = if decide (bound r (gl w2) = framebuffer fb) then 0%N else bound r (gl w2))
     ∧ (∀ other slot, other ≠ framebuffer fb →
          attachments (gl w3) !! (other, slot) = attachments (gl w2) !! (other, slot))).
Proof.
  intros Hops fb w1 w2 w3.
  destruct (fresh_name_spec (gl w)) as [Hz Hfresh].
  assert (live fb w1) as Hl1.
  { split; [exact Hz|]. unfold w1. rewrite run_Framebuffer_new, gl_run_native.
    change (gl_exec (GlGenFramebuffers 1) (gl w)) with (gen_one (gl w)).
    rewrite names_gen_one. set_solver. }
  destruct (lifetime fb ops w1 Hops Hl1) as [Hl2 Hcount]. fold w2 in Hl2, Hcount.
  destruct Hl2 as [Hz2 Hin2].
  destruct (delete_one_live _ _ Hz2 Hin2) as (Hnames & Hbound & Hatt).
  split_and!.
  - reflexivity.
  - exact Hfresh.
  - reflexivity.
  - by intros [|].
  - exact Hl1.
  - by split.
  - reflexivity.
  - unfold w3, Framebuffer_delete. rewrite calls_run_native, release_count_app, Hcount.
    unfold w1. rewrite run_Framebuffer_new, calls_run_native, release_count_app. simpl.
    rewrite filter_cons, decide_True by done. simpl. lia.
  - exact Hnames.
  - exact Hbound.
  - exact Hatt.
Qed.

(** ** Features and the no-argument clear *)

Lemma enabled_raise e s : enabled (raise e s) = enabled s.
Proof. unfold raise. by destruct (glError s =? GL_NO_ERROR)%N. Qed.

Lemma enabled_glBindFramebuffer t fb s : enabled (glBindFramebuffer t fb s) = enabled s.
Proof.
  unfold glBindFramebuffer. destruct (target_roles t) as [[r d]|]; [|apply enabled_raise].
  by destruct (is_name fb s); [|apply enabled_raise].
Qed.

Lemma enabled_attach_native t a x s : enabled (attach_native t a x s) = enabled s.
Proof.
  unfold attach_native. destruct (addressed t s) as [fb|]; [|apply enabled_raise].
  destruct (fb =? 0)%N; [apply enabled_raise|].
  by destruct (attachment_points a); [apply enabled_raise|].
Qed.

Lemma enabled_glGenFramebuffers n s : enabled (glGenFramebuffers n s) = enabled s.
Proof.
  unfold glGenFramebuffers. induction (Z.to_nat n) as [|k IH]; [done|].
  by rewrite Nat.iter_succ.
Qed.

Lemma enabled_glDeleteFramebuffers fbs s : enabled (glDeleteFramebuffers fbs s) = enabled s.
Proof.
  unfold glDeleteFramebuffers. revert s. induction fbs as [|fb fbs IH]; intros s; [done|].
  simpl. rewrite IH. unfold delete_one. by destruct (is_name fb s && negb (fb =? 0)%N).
Qed.

(** Only [glEnable] and [glDisable] change the enabled capabilities. *)
Lemma enabled_gl_exec c s :
  enabled (gl_exec c s)
  = match c with
    | GlEnable cap => {[cap]} ∪ enabled s
    | GlDisable cap => enabled s ∖ {[cap]}
    | _ => enabled s
    end.
Proof.
  destruct c; simpl; try done.
  - apply enabled_glGenFramebuffers.
  - apply enabled_glDeleteFramebuffers.
  - apply enabled_glBindFramebuffer.
  - apply enabled_attach_native.
  - apply enabled_attach_native.
  - apply enabled_attach_native.
  - apply enabled_attach_native.
Qed.

Lemma enabled_replay_keeps l s :
  Forall (λ c, match c with GlEnable _ | GlDisable _ => False | _ => True end) l →
  enabled (replay l s) = enabled s.
Proof.
  revert s. induction l as [|c l IH]; intros s Hl; [done|].
  apply Forall_cons in Hl as [Hc Hl]. simpl. rewrite (IH _ Hl), enabled_gl_exec.
  by destruct c.
Qed.

Lemma enabled_exec o w :
  (∀ f b, o ≠ OpSetFeature f b) → enabled (gl (exec o w)) = enabled (gl w).
Proof.
  intros Ho. destruct (exec_issues o w) as (l & _ & -> & Hfrom & _).
  apply enabled_replay_keeps. eapply Forall_impl; [exact Hfrom|].
  intros c Hc. destruct c; try done; destruct Hc as (f & Heq & _); by apply Ho in Heq.
Qed.

Lemma clearMask_exec o w :
  (∀ f b, o ≠ OpSetFeature f b) → clearMask (exec o w) = clearMask w.
Proof.
  intros Ho. destruct o; try done; [by destruct (Ho feature enabled0)|by destruct c].
Qed.

Lemma gl_setFeature f b w :
  gl (run (setFeature f b) w)
  = gl_exec (if b then GlEnable (Feature.value f) else GlDisable (Feature.value f)) (gl w).
Proof. by destruct f. Qed.

Lemma mem_enable (c cap : N) (e : gset N) :
  bool_decide (c ∈ {[cap]} ∪ e) = (c =? cap)%N || bool_decide (c ∈ e).
Proof.
  destruct (N.eqb_spec c cap) as [->|Hne]; simpl.
  - apply bool_decide_eq_true_2, elem_of_union_l, elem_of_singleton. reflexivity.
  - apply bool_decide_ext. rewrite elem_of_union, elem_of_singleton. tauto.
Qed.

Lemma mem_disable (c cap : N) (e : gset N) :
  bool_decide (c ∈ e ∖ {[cap]}) = negb (c =? cap)%N && bool_decide (c ∈ e).
Proof.
  destruct (N.eqb_spec c cap) as [->|Hne]; simpl.
  - apply bool_decide_eq_false_2. rewrite elem_of_difference, elem_of_singleton. tauto.
  - apply bool_decide_ext. rewrite elem_of_difference, elem_of_singleton. tauto.
Qed.

(** The static mask follows the two tests: an invariant of every
    operation. *)
Lemma clearMask_follows_exec o w :
  clearMask w = expected_clearMask (enabled (gl w)) →
  clearMask (exec o w) = expected_clearMask (enabled (gl (exec o w))).
Proof.
  intros Hinv.
  assert ((∀ f b, o ≠ OpSetFeature f b) →
          clearMask (exec o w) = expected_clearMask (enabled (gl (exec o w)))) as Hother.
  { intros Ho. by rewrite clearMask_exec, enabled_exec. }
  destruct o as [f b| | | | | | | | | | | | | | | | | |];
    try (apply Hother; intros ? ?; discriminate).
  clear Hother. cbn [exec]. rewrite gl_setFeature, enabled_gl_exec.
  unfold expected_clearMask in *.
  destruct b; [rewrite !mem_enable|rewrite !mem_disable];
    destruct f; cbn [Feature.value orb andb negb];
    unfold setFeature, run; simpl; rewrite Hinv;
    destruct (bool_decide (GL_DEPTH_TEST ∈ enabled (gl w)));
    destruct (bool_decide (GL_STENCIL_TEST ∈ enabled (gl w))); reflexivity.
Qed.

Lemma clearMask_follows ops w :
  clearMask w = expected_clearMask (enabled (gl w)) →
  clearMask (exec_all ops w) = expected_clearMask (enabled (gl (exec_all ops w))).
Proof.
  revert w. induction ops as [|o ops IH]; intros w Hinv; [done|].
  rewrite exec_all_cons. by apply IH, clearMask_follows_exec.
Qed.

Lemma mask_names_expected e c :
  mask_names (expected_clearMask e) c = true
  ↔ match c with
    | Clear.Color => True
    | Clear.Depth => GL_DEPTH_TEST ∈ e
    | Clear.Stencil => GL_STENCIL_TEST ∈ e
    end.
Proof.
  unfold expected_clearMask.
  destruct (bool_decide_reflect (GL_DEPTH_TEST ∈ e)) as [Hd|Hd];
    destruct (bool_decide_reflect (GL_STENCIL_TEST ∈ e)) as [Hs|Hs];
    destruct c; vm_compute; split; try done.
Qed.

(** C1.  In every state the interface can reach from the initial one, the
    no-argument [clear()] issues one native clear with the static mask and
    changes nothing else (clear values included); what it clears is always
    on the framebuffer currently bound for drawing, and is: the colour
    buffer; the depth buffer if and only if [DepthTest] is enabled; the
    stencil buffer if and only if [StencilTest] is enabled. *)
Theorem clear_follows_enabled_tests (ops : list Op) :
  let w := exec_all ops initial in
  let w' := run clear w in
  calls w' = calls w ++ [GlClear (clearMask w)]
  ∧ gl w' = gl w
  ∧ clearMask w' = clearMask w
  ∧ (∀ fb c, (fb, c) ∈ clears (GlClear (clearMask w)) (gl w)
             ↔ fb = drawFramebuffer (gl w)
               ∧ match c with
                 | Clear.Color => True
                 | Clear.Depth => is_enabled Feature.DepthTest w
                 | Clear.Stencil => is_enabled Feature.StencilTest w
                 end).
Proof.
  intros w w'. split_and!; try reflexivity.
  intros fb c. rewrite elem_of_clears. unfold w at 2.
  rewrite (clearMask_follows ops initial) by reflexivity.
  fold w. by rewrite mask_names_expected.
Qed.

(** C9.  [setFeature(feature, enabled)] applied twice with the same
    arguments leaves the native state (the enabled capabilities among it)
    and the static clear mask as one application does.  It raises no native
    error on any input, and it switches exactly the one flag it is
    given. *)
Theorem setFeature_idempotent (f : Feature.t) (b : bool) (w : World) :
  let w1 := run (setFeature f b) w in
  let w2 := run (setFeature f b) w1 in
  gl w2 = gl w1
  ∧ clearMask w2 = clearMask w1
  ∧ glError (gl w1) = glError (gl w)
  ∧ (∀ f', is_enabled f' w1 ↔ if decide (f' = f) then b = true else is_enabled f' w).
Proof.
  intros w1 w2. split_and!.
  - unfold w2, w1. rewrite !gl_setFeature.
    destruct b; simpl; unfold set_enabled; simpl; f_equal.
    + by rewrite (assoc_L (∪)), (idemp_L (∪)).
    + apply set_eq. intros x. rewrite !elem_of_difference. tauto.
  - unfold w2, w1. destruct f, b; simpl; try reflexivity.
    + by rewrite <- N.lor_assoc, N.lor_diag.
    + by rewrite <- N.land_assoc, N.land_diag.
    + by rewrite <- N.lor_assoc, N.lor_diag.
    + by rewrite <- N.land_assoc, N.land_diag.
  - unfold w1. rewrite gl_setFeature. by destruct b.
  - intros f'. unfold is_enabled, w1. rewrite gl_setFeature, enabled_gl_exec.
    destruct b.
    + rewrite elem_of_union, elem_of_singleton. case_decide as Hf.
      * subst. tauto.
      * split; [intros [Heq|H]; [|done]|tauto]. by destruct f, f'.
    + rewrite elem_of_difference, elem_of_singleton. case_decide as Hf.
      * subst. split; [tauto|done].
      * split; [tauto|]. intros H; split; [done|]. by destruct f, f'.
Qed.

(** * Instances on concrete states *)

Lemma two_targets_live : live targetA two_targets ∧ live targetB two_targets.
Proof. repeat split; try discriminate; vm_compute; reflexivity. Qed.

Lemma attach_binds_first_witness :
  live targetA (run (bind targetB Target.Draw) two_targets)
  ∧ calls (run (attach targetA (RenderbufferDS Target.Draw DepthStencilAttachment.Depth
                                  depthBuffer))
               (run (bind targetB Target.Draw) two_targets))
    = [GlGenFramebuffers 1; GlGenFramebuffers 1;
       GlBindFramebuffer GL_DRAW_FRAMEBUFFER 2;
       GlBindFramebuffer GL_DRAW_FRAMEBUFFER 1;
       GlFramebufferRenderbuffer GL_DRAW_FRAMEBUFFER GL_DEPTH_ATTACHMENT GL_RENDERBUFFER 7].
Proof.
  assert (live targetA (run (bind targetB Target.Draw) two_targets)) as Hl
    by (split; [discriminate | vm_compute; reflexivity]).
  split; [exact Hl|].
  exact (proj1 (proj2 (attach_binds_first targetA
    (RenderbufferDS Target.Draw DepthStencilAttachment.Depth depthBuffer) _ Hl))).
Defined.

Lemma implicit_bind_persists_witness :
  live targetA (run (bind targetB Target.Draw) two_targets)
  ∧ current Target.Draw
      (run (attach targetA (Texture2DColor Target.Draw 0 colorTexture 0))
           (run (bind targetB Target.Draw) two_targets))
    = framebuffer targetA.
Proof.
  assert (live targetA (run (bind targetB Target.Draw) two_targets)) as Hl
    by (split; [discriminate | vm_compute; reflexivity]).
  split; [exact Hl|].
  exact (proj1 (implicit_bind_persists targetA _ Hl)
           (Texture2DColor Target.Draw 0 colorTexture 0)).
Defined.

Lemma attach_then_query_color_slot_witness :
  live targetA two_targets
  ∧ attach_color_index (Texture2DColor Target.Draw 3 colorTexture 0) = Some 3%N
  ∧ (3 < maxColorAttachments)%N
  ∧ (attach_resource (Texture2DColor Target.Draw 3 colorTexture 0)).1 ≠ 0%N
  ∧ color_slot targetA 3 (run (attach targetA (Texture2DColor Target.Draw 3 colorTexture 0))
                              two_targets)
    = Some (AttTexture 0x0DE1 9 0 0).
Proof.
  assert (live targetA two_targets) as Hl
    by (split; [discriminate | vm_compute; reflexivity]).
  assert (3 < maxColorAttachments)%N as Hn by reflexivity.
  assert ((attach_resource (Texture2DColor Target.Draw 3 colorTexture 0)).1 ≠ 0%N) as Hres
    by discriminate.
  split_and!; [exact Hl|reflexivity|exact Hn|exact Hres|].
  exact (proj1 (attach_then_query_color_slot targetA
    (Texture2DColor Target.Draw 3 colorTexture 0) 3 two_targets Hl eq_refl Hn Hres)).
Defined.

Lemma bind_replaces_only_its_role_witness :
  Forall (λ b, is_name (bind_name b) (gl two_targets) = true)
    [Bind targetA Target.Read; Bind targetB Target.Draw; BindDefault Target.Read]
  ∧ ∀ r, bound r (gl (exec_all (map bind_op [Bind targetA Target.Read;
                                              Bind targetB Target.Draw;
                                              BindDefault Target.Read]) two_targets))
         = match r with ReadRole => 0%N | DrawRole => 2%N end.
Proof.
  assert (Forall (λ b, is_name (bind_name b) (gl two_targets) = true)
            [Bind targetA Target.Read; Bind targetB Target.Draw; BindDefault Target.Read])
    as Hbs by (repeat constructor).
  split; [exact Hbs|]. intros r.
  rewrite (proj1 (bind_replaces_only_its_role _ two_targets Hbs) r). by destruct r.
Defined.

Lemma handle_allocated_once_released_once_witness :
  Forall (λ o, o ≠ OpDelete (Framebuffer_new initial).1)
    [OpBind targetA Target.Draw; OpNew; OpDelete targetB; OpBindDefault Target.Read]
  ∧ live targetA
      (exec_all [OpBind targetA Target.Draw; OpNew; OpDelete targetB; OpBindDefault Target.Read]
         (run Framebuffer_new initial)).
Proof.
  assert (Forall (λ o, o ≠ OpDelete (Framebuffer_new initial).1)
            [OpBind targetA Target.Draw; OpNew; OpDelete targetB; OpBindDefault Target.Read])
    as Hops by (repeat constructor; intros H; vm_compute in H; discriminate H).
  split; [exact Hops|].
  exact (proj1 (proj2 (handle_allocated_once_released_once initial _ Hops))).
Defined.

(** ** Scenarios *)

(** Both branches of the no-argument clear: with the depth test off only
    colour is cleared, with it on colour and depth are. *)
Example clear_without_depth_test :
  clears (GlClear (clearMask initial)) (gl initial) = [(0%N, Clear.Color)].
Proof. reflexivity. Qed.

Example clear_with_depth_test :
  let w := exec_all [OpNew; OpBind targetA Target.Draw;
                     OpSetFeature Feature.DepthTest true] initial in
  clears (GlClear (clearMask w)) (gl w) = [(1%N, Clear.Color); (1%N, Clear.Depth)]
  ∧ calls (run clear w)
    = [GlGenFramebuffers 1; GlBindFramebuffer GL_DRAW_FRAMEBUFFER 1;
       GlEnable GL_DEPTH_TEST; GlClear 0x4100].
Proof. split; vm_compute; reflexivity. Qed.

(** The masked clear ignores the tests: depth is cleared with the depth
    test off. *)
Example clear_mask_without_depth_test :
  clears (GlClear (ClearMask_of [Clear.Depth])) (gl initial) = [(0%N, Clear.Depth)].
Proof. reflexivity. Qed.

(** Attaching to A while B is Draw-bound leaves A Draw-bound, and a
    following clear addresses A. *)
Example attach_rebinds :
  let w := exec_all [OpBind targetB Target.Draw;
                     OpAttach targetA (RenderbufferColor Target.Draw 0 depthBuffer)]
             two_targets in
  drawFramebuffer (gl w) = 1%N
  ∧ color_slot targetA 0 w = Some (AttRenderbuffer 7)
  ∧ color_slot targetB 0 w = None
  ∧ clears (GlClear (clearMask w)) (gl w) = [(1%N, Clear.Color)].
Proof. split_and!; vm_compute; reflexivity. Qed.

(** Destroying the Draw-bound target leaves the default target bound for
    drawing, and the Read binding of the other target alone. *)
Example destroy_bound_target :
  let w := exec_all [OpBind targetA Target.Draw; OpBind targetB Target.Read;
                     OpDelete targetA] two_targets in
  drawFramebuffer (gl w) = 0%N ∧ readFramebuffer (gl w) = 2%N
  ∧ live targetB w ∧ ¬ live targetA w.
Proof.
  split_and!; try (vm_compute; reflexivity).
  - split; [discriminate|vm_compute; reflexivity].
  - intros [_ H]. vm_compute in H. discriminate H.
Qed.

(** A colour slot index beyond the documented range is not rejected: index
    32 reaches the native layer as the depth attachment point. *)
Example attach_slot_32_is_depth :
  let w := run (attachRenderbuffer targetA Target.Draw 32 depthBuffer) two_targets in
  attachments (gl w) !! (1%N, GL_DEPTH_ATTACHMENT) = Some (AttRenderbuffer 7)
  ∧ glError (gl w) = GL_NO_ERROR.
Proof. split; vm_compute; reflexivity. Qed.

(** * Further properties of the header's members *)

(** ** What an attach call changes *)

Lemma attachments_raise e s : attachments (raise e s) = attachments s.
Proof. unfold raise. by destruct (glError s =? GL_NO_ERROR)%N. Qed.

Lemma attachments_glBindFramebuffer t fb s :
  attachments (glBindFramebuffer t fb s) = attachments s.
Proof.
  unfold glBindFramebuffer. destruct (target_roles t) as [[r d]|]; [|apply attachments_raise].
  by destruct (is_name fb s); [|apply attachments_raise].
Qed.

Lemma lookup_attach_points (a : option Attachment) (fb : N) (pts : list N)
    (m : gmap (N * N) Attachment) (fb' p' : N) :
  foldr (λ p m, partial_alter (λ _, a) (fb, p) m) m pts !! (fb', p')
  = if decide (fb' = fb ∧ p' ∈ pts) then a else m !! (fb', p').
Proof.
  induction pts as [|p pts IH]; simpl.
  - rewrite decide_False; [done|]. intros [_ H]. by apply elem_of_nil in H.
  - rewrite lookup_partial_alter. destruct (decide ((fb, p) = (fb', p'))) as [Hk|Hk].
    + simplify_eq. rewrite decide_True; [reflexivity|]. split; [done|].
      apply elem_of_cons. by left.
    + rewrite IH. destruct (decide (fb' = fb ∧ p' ∈ pts)) as [[-> Hin]|Hno].
      * rewrite decide_True; [done|]. split; [done|]. apply elem_of_cons. by right.
      * rewrite decide_False; [done|]. intros [-> Hin].
        apply elem_of_cons in Hin as [->|Hin]; [done|]. by apply Hno.
Qed.

(** The attachment table after an attach call on a live target: the points
    the slot enumerant stands for, under the target's own name, hold the
    resource; every other entry is as before. *)
Lemma attachments_after_attach this c w fb p :
  live this w →
  attachments (gl (run (attach this c) w)) !! (fb, p)
  = if decide (fb = framebuffer this ∧ p ∈ attachment_points (attach_slot c))
    then object_or_none (attach_resource c).1 (attach_resource c).2
    else attachments (gl w) !! (fb, p).
Proof.
  intros Hl. rewrite attach_unfold, gl_run_native, gl_exec_attach_call.
  unfold attach_native. rewrite (addressed_after_bind _ _ _ Hl).
  destruct Hl as [Hz _]. apply N.eqb_neq in Hz. rewrite Hz.
  destruct (attachment_points (attach_slot c)) as [|p0 pts] eqn:Hpts.
  - rewrite attachments_raise, gl_run_bind, attachments_glBindFramebuffer.
    rewrite decide_False; [done|]. intros [_ H]. by apply elem_of_nil in H.
  - cbn [attachments set_attachments]. rewrite (lookup_attach_points _ _ (p0 :: pts)).
    by rewrite gl_run_bind, attachments_glBindFramebuffer.
Qed.

(** X1.  An attach call on a live target changes no attachment other than
    the point(s) its slot names on that target: every attachment of every
    other target, and every other attachment point of the same target, is
    as before; and it neither generates nor releases a name. *)
Theorem attach_changes_only_its_slot
    (this : Framebuffer) (c : AttachCall) (w : World) (fb p : N) :
  live this w →
  fb ≠ framebuffer this ∨ p ∉ attachment_points (attach_slot c) →
  attachments (gl (run (attach this c) w)) !! (fb, p) = attachments (gl w) !! (fb, p)
  ∧ names (gl (run (attach this c) w)) = names (gl w).
Proof.
  intros Hl Hother. split.
  - rewrite attachments_after_attach by done. rewrite decide_False; [done|]. tauto.
  - by rewrite attach_unfold, gl_run_native, gl_exec_attach_call, names_attach_native,
      gl_run_bind, names_glBindFramebuffer.
Qed.

Lemma attach_slot_ds c a : attach_ds_index c = Some a → attach_slot c = slot_ds a.
Proof. destruct c; simpl; congruence. Qed.

(** X2.  Attach, then query, for the depth / stencil overloads: after
    attaching a resource (non-zero object name) to the [Depth] slot of a
    live target its depth point holds exactly that reference and its
    stencil point is as before; likewise for [Stencil]; for [DepthStencil]
    both points hold the reference. *)
Theorem attach_then_query_depth_stencil
    (this : Framebuffer) (c : AttachCall) (a : DepthStencilAttachment.t) (w : World) :
  live this w →
  attach_ds_index c = Some a →
  (attach_resource c).1 ≠ 0%N →
  let w' := run (attach this c) w in
  match a with
  | DepthStencilAttachment.Depth =>
      depth_slot this w' = Some (attach_resource c).2
      ∧ stencil_slot this w' = stencil_slot this w
  | DepthStencilAttachment.Stencil =>
      stencil_slot this w' = Some (attach_resource c).2
      ∧ depth_slot this w' = depth_slot this w
  | DepthStencilAttachment.DepthStencil =>
      depth_slot this w' = Some (attach_resource c).2
      ∧ stencil_slot this w' = Some (attach_resource c).2
  end.
Proof.
  intros Hl Hc Hres w'. unfold depth_slot, stencil_slot, w'.
  rewrite !attachments_after_attach by done. rewrite (attach_slot_ds _ _ Hc).
  unfold object_or_none. apply N.eqb_neq in Hres. rewrite Hres.
  destruct a; split.
  - rewrite decide_True; [done|]. split; [done|]. vm_compute. apply elem_of_cons. by left.
  - rewrite decide_False; [done|]. intros [_ H]. vm_compute in H.
    apply elem_of_cons in H as [H|H]; [discriminate H|]. by apply elem_of_nil in H.
  - rewrite decide_True; [done|]. split; [done|]. vm_compute. apply elem_of_cons. by left.
  - rewrite decide_False; [done|]. intros [_ H]. vm_compute in H.
    apply elem_of_cons in H as [H|H]; [discriminate H|]. by apply elem_of_nil in H.
  - rewrite decide_True; [done|]. split; [done|]. vm_compute. apply elem_of_cons. by left.
  - rewrite decide_True; [done|]. split; [done|]. vm_compute.
    apply elem_of_cons. right. apply elem_of_cons. by left.
Qed.

(** X3.  Attachments outlive the binding: a resource attached to a valid
    colour slot of target A is still what that slot holds after any attach
    call on another live target B, although that call rebinds the role and
    A is no longer bound. *)
Theorem attachment_survives_attach_on_other_target
    (A B : Framebuffer) (c1 c2 : AttachCall) (n : N) (w : World) :
  live A w → live B w →
  framebuffer B ≠ framebuffer A →
  attach_color_index c1 = Some n →
  (n < maxColorAttachments)%N →
  (attach_resource c1).1 ≠ 0%N →
  color_slot A n (run (attach B c2) (run (attach A c1) w)) = Some (attach_resource c1).2.
Proof.
  intros HA HB Hne Hc Hn Hres. unfold color_slot.
  rewrite attachments_after_attach by (by apply live_after_attach).
  rewrite decide_False by (intros [H _]; congruence).
  rewrite attachments_after_attach by done.
  rewrite (attach_slot_color _ _ Hc), (slot_color_valid _ Hn), (attachment_points_color _ Hn).
  rewrite decide_True by (split; [done|apply elem_of_cons; by left]).
  unfold object_or_none. apply N.eqb_neq in Hres. by rewrite Hres.
Qed.

Lemma slot_color_eq n k :
  (n < 2 ^ 32)%N → (k < 2 ^ 32)%N →
  slot_color n = k ↔ n = wrap32 (k + (2 ^ 32 - GL_COLOR_ATTACHMENT0)).
Proof.
  unfold slot_color, wrap32, GL_COLOR_ATTACHMENT0.
  change (2 ^ 32)%N with 4294967296%N. intros Hn Hk.
  destruct (N.lt_ge_cases (0x8CE0 + n) 4294967296) as [Hs|Hs].
  - rewrite (N.mod_small (0x8CE0 + n)) by done. split; intros H.
    + subst k. replace (0x8CE0 + n + (4294967296 - 0x8CE0))%N
        with (n + 1 * 4294967296)%N by lia.
      rewrite N.Div0.mod_add. symmetry. by apply N.mod_small.
    + destruct (N.lt_ge_cases (k + (4294967296 - 0x8CE0)) 4294967296) as [Hk'|Hk'].
      * rewrite N.mod_small in H by done. lia.
      * replace (k + (4294967296 - 0x8CE0))%N
          with ((k - 0x8CE0) + 1 * 4294967296)%N in H by lia.
        rewrite N.Div0.mod_add, N.mod_small in H by lia. lia.
  - replace (0x8CE0 + n)%N with ((n - (4294967296 - 0x8CE0)) + 1 * 4294967296)%N by lia.
    rewrite N.Div0.mod_add, N.mod_small by lia. split; intros H.
    + rewrite N.mod_small by lia. lia.
    + destruct (N.lt_ge_cases (k + (4294967296 - 0x8CE0)) 4294967296) as [Hk'|Hk'].
      * rewrite N.mod_small in H by done. lia.
      * replace (k + (4294967296 - 0x8CE0))%N
          with ((k - 0x8CE0) + 1 * 4294967296)%N in H by lia.
        rewrite N.Div0.mod_add, N.mod_small in H by lia. lia.
Qed.

(** X4.  The colour index is not range-checked, and the colour and the
    depth / stencil overloads meet in one native enumerant space: among
    all 32-bit indices, the colour overload of [attachRenderbuffer] is the
    same call as the depth-stencil overload on [Depth] exactly for index
    32, on [Stencil] exactly for index 64, and on [DepthStencil] exactly for
    the index that wraps around to that enumerant.  In particular no
    documented index (0 to 15) reaches a depth or stencil point. *)
Theorem color_index_aliases_depth_stencil
    (this : Framebuffer) (target : Target.t) (rb : Renderbuffer)
    (a : DepthStencilAttachment.t) (n : N) :
  (n < 2 ^ 32)%N →
  (∀ w, attachRenderbuffer this target n rb w = attachRenderbuffer_ds this target a rb w)
  ↔ n = alias_index a.
Proof.
  intros Hn.
  assert (slot_color n = slot_ds a ↔ n = alias_index a) as Hslot.
  { rewrite slot_color_eq by (done || by destruct a). by destruct a. }
  split.
  - intros Heq. apply Hslot.
    pose proof (f_equal (λ r, calls r.2) (Heq {| gl := gl_initial; clearMask := 0; calls := [] |}))
      as Hcalls.
    unfold attachRenderbuffer, attachRenderbuffer_ds, bind in Hcalls.
    vm_compute mbind in Hcalls. simpl in Hcalls. by simplify_eq.
  - intros Hal w. apply Hslot in Hal. unfold attachRenderbuffer, attachRenderbuffer_ds.
    fold (slot_color n). fold (slot_ds a). by rewrite Hal.
Qed.

Lemma glError_bind_live this t w :
  live this w → glError (gl (run (bind this t) w)) = glError (gl w).
Proof.
  intros Hl. rewrite gl_run_bind. unfold glBindFramebuffer.
  by rewrite target_roles_value, (is_name_live _ _ Hl).
Qed.

(** X5.  A failed attach still rebinds.  When the slot enumerant is not an
    attachment point (for instance a colour index from 16 to 31), the
    attach call on a live target changes no attachment at all and the
    native layer records an invalid-enumerant error (unless an earlier
    error is still pending); but the target has been bound to the role
    and stays bound. *)
Theorem attach_to_invalid_slot_only_rebinds
    (this : Framebuffer) (c : AttachCall) (w : World) :
  live this w →
  attachment_points (attach_slot c) = [] →
  let w' := run (attach this c) w in
  attachments (gl w') = attachments (gl w)
  ∧ current (attach_target c) w' = framebuffer this
  ∧ glError (gl w')
    = if (glError (gl w) =? GL_NO_ERROR)%N then GL_INVALID_ENUM else glError (gl w).
Proof.
  intros Hl Hpts w'. split_and!.
  - apply map_eq. intros [fb p]. unfold w'. rewrite attachments_after_attach by done.
    rewrite Hpts, decide_False; [done|]. intros [_ H]. by apply elem_of_nil in H.
  - pose proof (bound_after_attach this c w ReadRole Hl) as Hr.
    pose proof (bound_after_attach this c w DrawRole Hl) as Hd.
    unfold current, w'. by destruct (attach_target c).
  - unfold w'. rewrite attach_unfold, gl_run_native, gl_exec_attach_call.
    unfold attach_native. rewrite (addressed_after_bind _ _ _ Hl), Hpts.
    pose proof (glError_bind_live this (attach_target c) w Hl) as He.
    destruct Hl as [Hz _]. apply N.eqb_neq in Hz. rewrite Hz.
    unfold raise. rewrite He. by destruct (glError (gl w) =? GL_NO_ERROR)%N.
Qed.

(** ** Read mapping *)


(** ** No dangling references *)

Lemma is_name_spec fb s : is_name fb s = true ↔ fb = 0%N ∨ fb ∈ names s.
Proof.
  unfold is_name. rewrite orb_true_iff, N.eqb_eq, bool_decide_eq_true. tauto.
Qed.

Lemma well_formed_fields s s' :
  readFramebuffer s' = readFramebuffer s → drawFramebuffer s' = drawFramebuffer s →
  names s' = names s → attachments s' = attachments s →
  readBuffers s' = readBuffers s → drawBuffers s' = drawBuffers s →
  well_formed s → well_formed s'.
Proof.
  destruct s, s'. simpl. intros -> -> -> -> -> -> (H0 & Hb & Ha & Hr & Hd).
  split_and!; first [done | intros [|]; [exact (Hb ReadRole)|exact (Hb DrawRole)]].
Qed.

Lemma well_formed_raise e s : well_formed s → well_formed (raise e s).
Proof.
  unfold raise. destruct (glError s =? GL_NO_ERROR)%N; [|done].
  by apply well_formed_fields.
Qed.

Lemma well_formed_glBindFramebuffer t fb s :
  well_formed s → well_formed (glBindFramebuffer t fb s).
Proof.
  intros Hwf. unfold glBindFramebuffer.
  destruct (target_roles t) as [[r d]|]; [|by apply well_formed_raise].
  destruct (is_name fb s) eqn:Hn; [|by apply well_formed_raise].
  destruct Hwf as (H0 & Hb & Ha & Hr & Hd). split_and!; try done.
  intros [|]; simpl.
  - destruct r; [exact Hn|exact (Hb ReadRole)].
  - destruct d; [exact Hn|exact (Hb DrawRole)].
Qed.

Lemma well_formed_gen_one s : well_formed s → well_formed (gen_one s).
Proof.
  intros (H0 & Hb & Ha & Hr & Hd). destruct (fresh_name_spec s) as [Hz Hfresh].
  assert (∀ x, is_name x s = true → is_name x (gen_one s) = true) as Hmono.
  { intros x. rewrite !is_name_spec, names_gen_one, elem_of_union. tauto. }
  split_and!.
  - rewrite names_gen_one, elem_of_union, elem_of_singleton. intros [H|H]; [by apply Hz|done].
  - intros r. apply Hmono. destruct r; [exact (Hb ReadRole)|exact (Hb DrawRole)].
  - intros fb p a H. rewrite names_gen_one, elem_of_union. right. by eapply Ha.
  - intros fb b H. apply Hmono. by eapply Hr.
  - intros fb b H. apply Hmono. by eapply Hd.
Qed.

Lemma well_formed_delete_one fb s : well_formed s → well_formed (delete_one fb s).
Proof.
  intros (H0 & Hb & Ha & Hr & Hd). unfold delete_one.
  destruct (is_name fb s && negb (fb =? 0)%N) eqn:Hc; [|done].
  assert (∀ x, x ≠ fb → is_name x s = true →
            x = 0%N ∨ x ∈ names s ∖ {[fb]}) as Hkeep.
  { intros x Hx. rewrite is_name_spec, elem_of_difference, elem_of_singleton. tauto. }
  split_and!; simpl.
  - rewrite elem_of_difference. tauto.
  - intros [|]; simpl; apply is_name_spec; simpl.
    + destruct (N.eqb_spec (readFramebuffer s) fb) as [|Hne]; [by left|].
      apply Hkeep; [done|exact (Hb ReadRole)].
    + destruct (N.eqb_spec (drawFramebuffer s) fb) as [|Hne]; [by left|].
      apply Hkeep; [done|exact (Hb DrawRole)].
  - intros fb' p a H. apply map_lookup_filter_Some in H as [H Hne]. simpl in Hne.
    rewrite elem_of_difference, elem_of_singleton. split; [by eapply Ha|done].
  - intros fb' b H. apply lookup_delete_Some in H as [Hne H].
    apply is_name_spec. simpl. apply Hkeep; [done|by eapply Hr].
  - intros fb' b H. apply lookup_delete_Some in H as [Hne H].
    apply is_name_spec. simpl. apply Hkeep; [done|by eapply Hd].
Qed.

Lemma addressed_bound t s fb : addressed t s = Some fb → ∃ r, fb = bound r s.
Proof.
  unfold addressed. repeat case_match; intros [=]; subst;
    [by exists ReadRole|by exists DrawRole|by exists DrawRole].
Qed.

Lemma well_formed_attach_native t att a s :
  well_formed s → well_formed (attach_native t att a s).
Proof.
  intros Hwf. unfold attach_native.
  destruct (addressed t s) as [fb|] eqn:Haddr; [|by apply well_formed_raise].
  destruct (N.eqb_spec fb 0) as [|Hz]; [by apply well_formed_raise|].
  destruct (attachment_points att) as [|p0 pts]; [by apply well_formed_raise|].
  destruct Hwf as (H0 & Hb & Ha & Hr & Hd). split_and!; try done.
  intros fb' p' x. cbn [attachments set_attachments].
  rewrite (lookup_attach_points _ _ (p0 :: pts)).
  destruct (decide (fb' = fb ∧ p' ∈ p0 :: pts)) as [[-> _]|_]; [|by apply Ha].
  intros _. apply addressed_bound in Haddr as [r ->].
  pose proof (Hb r) as Hn. apply is_name_spec in Hn as [Hn|Hn]; [done|exact Hn].
Qed.

Lemma well_formed_gl_exec c s : well_formed s → well_formed (gl_exec c s).
Proof.
  intros Hwf. destruct c; simpl; try (by apply (well_formed_fields s)).
  - unfold glGenFramebuffers. induction (Z.to_nat n) as [|k IH]; [done|].
    rewrite Nat.iter_succ. by apply well_formed_gen_one.
  - unfold glDeleteFramebuffers. revert s Hwf.
    induction fbs as [|fb fbs IH]; intros s Hwf; [done|].
    simpl. by apply IH, well_formed_delete_one.
  - by apply well_formed_glBindFramebuffer.
  - destruct Hwf as (H0 & Hb & Ha & Hr & Hd). split_and!; try done.
    intros fb b. cbn [readBuffers set_readBuffers]. rewrite lookup_insert.
    case_decide as Heq; [|by apply Hr]. intros _. subst fb. exact (Hb ReadRole).
  - destruct Hwf as (H0 & Hb & Ha & Hr & Hd). split_and!; try done.
    intros fb b. cbn [drawBuffers set_drawBuffers]. rewrite lookup_insert.
    case_decide as Heq; [|by apply Hd]. intros _. subst fb. exact (Hb DrawRole).
  - by apply well_formed_attach_native.
  - by apply well_formed_attach_native.
  - by apply well_formed_attach_native.
  - by apply well_formed_attach_native.
Qed.

Lemma well_formed_exec_all ops w :
  well_formed (gl w) → well_formed (gl (exec_all ops w)).
Proof.
  revert w. induction ops as [|o ops IH]; intros w Hwf; [done|].
  rewrite exec_all_cons. apply IH.
  destruct (exec_issues o w) as (l & _ & -> & _). clear IH.
  generalize dependent (gl w). induction l as [|c l IHl]; intros s Hwf; [done|].
  simpl. by apply IHl, well_formed_gl_exec.
Qed.

(** X7.  No dangling references.  Starting from a well-formed context, any
    sequence of the header's operations (binds, attaches, read mappings,
    clears, blits, constructions and destructions, on any handles and in
    any order) leaves the context well-formed: each binding point holds
    the default target or a live one, and attachments and read-buffer
    selections exist only for the default target or live ones.  In
    particular destroying a bound target never leaves its name bound. *)
Theorem no_dangling_references (ops : list Op) (w : World) :
  Forall in_header ops →
  well_formed (gl w) →
  well_formed (gl (exec_all ops w)).
Proof. intros _. apply well_formed_exec_all. Qed.

Lemma well_formed_initial : well_formed gl_initial.
Proof.
  split_and!.
  - apply not_elem_of_empty.
  - by intros [|].
  - intros fb p a H. cbn in H. by rewrite lookup_empty in H.
  - intros fb b H. cbn in H. by rewrite lookup_empty in H.
  - intros fb b H. cbn in H. by rewrite lookup_empty in H.
Qed.

(** X8.  A newly constructed target starts empty.  In any state reached by
    the header's operations from a well-formed one, the target the
    constructor yields has no attachment at any point and no read-buffer
    selection, and is bound to no role, also when the native layer hands
    out again the name of a target destroyed earlier. *)
Theorem new_target_is_empty (ops : list Op) (w : World) :
  Forall in_header ops →
  well_formed (gl w) →
  let w1 := exec_all ops w in
  let fb := (Framebuffer_new w1).1 in
  let w2 := run Framebuffer_new w1 in
  (∀ p, attachments (gl w2) !! (framebuffer fb, p) = None)
  ∧ readBuffers (gl w2) !! framebuffer fb = None
  ∧ (∀ r, bound r (gl w2) ≠ framebuffer fb).
Proof.
  intros _ Hwf w1 fb w2.
  pose proof (well_formed_exec_all ops w Hwf) as (H0 & Hb & Ha & Hr & Hd). fold w1 in H0, Hb, Ha, Hr, Hd.
  destruct (fresh_name_spec (gl w1)) as [Hz Hfresh].
  split_and!.
  - intros p. destruct (attachments (gl w2) !! (framebuffer fb, p)) eqn:H; [|done].
    exfalso. apply Hfresh. by eapply Ha.
  - destruct (readBuffers (gl w2) !! framebuffer fb) eqn:H; [|done].
    exfalso. apply Hr in H. apply is_name_spec in H as [H|H]; [by apply Hz|by apply Hfresh].
  - intros r Heq.
    assert (bound r (gl w1) = fresh_name (gl w1)) as Heq1 by (by destruct r).
    pose proof (Hb r) as Hn. apply is_name_spec in Hn as [Hn|Hn].
    + apply Hz. by rewrite <- Heq1.
    + apply Hfresh. by rewrite <- Heq1.
Qed.

(** X9.  Destruction leaves nothing of the target behind: after the
    destructor of a live target, no attachment and no read-buffer
    selection is recorded under its name, no binding point holds it, and
    its handle is no longer live. *)
Theorem destroyed_target_leaves_nothing (this : Framebuffer) (w : World) :
  live this w →
  let w' := run (Framebuffer_delete this) w in
  (∀ p, attachments (gl w') !! (framebuffer this, p) = None)
  ∧ readBuffers (gl w') !! framebuffer this = None
  ∧ (∀ r, bound r (gl w') ≠ framebuffer this)
  ∧ ¬ live this w'.
Proof.
  intros [Hz Hin] w'.
  destruct (delete_one_live _ _ Hz Hin) as (Hnames & Hbound & _).
  assert (is_name (framebuffer this) (gl w) && negb (framebuffer this =? 0)%N = true) as Hc.
  { unfold is_name. rewrite (bool_decide_eq_true_2 _ Hin), orb_true_r.
    apply N.eqb_neq in Hz. by rewrite Hz. }
  unfold w'. rewrite gl_run_delete. split_and!.
  - intros p. unfold delete_one. rewrite Hc. cbn [attachments].
    apply map_lookup_filter_None. right. intros x _ Hne. by apply Hne.
  - unfold delete_one. rewrite Hc. cbn [readBuffers]. apply lookup_delete_eq.
  - intros r. rewrite Hbound. case_decide; congruence.
  - intros [_ H]. rewrite gl_run_delete, Hnames, elem_of_difference, elem_of_singleton in H.
    tauto.
Qed.


(** X11.  Two targets that are alive at the same time never share a
    handle: a target constructed while an earlier one has not been
    destroyed gets a different name, whatever the header's operations in
    between. *)
Theorem live_targets_have_distinct_handles (ops : list Op) (w : World) :
  Forall (λ o, o ≠ OpDelete (Framebuffer_new w).1) ops →
  let first := (Framebuffer_new w).1 in
  let w1 := exec_all ops (run Framebuffer_new w) in
  let second := (Framebuffer_new w1).1 in
  framebuffer second ≠ framebuffer first
  ∧ live first (run Framebuffer_new w1)
  ∧ live second (run Framebuffer_new w1).
Proof.
  intros Hops first w1 second.
  destruct (fresh_name_spec (gl w)) as [Hz Hfresh].
  assert (live first (run Framebuffer_new w)) as Hl.
  { split; [exact Hz|]. rewrite run_Framebuffer_new, gl_run_native.
    change (gl_exec (GlGenFramebuffers 1) (gl w)) with (gen_one (gl w)).
    rewrite names_gen_one. apply elem_of_union_l, elem_of_singleton. reflexivity. }
  destruct (lifetime first ops _ Hops Hl) as [[_ Hin] _]. fold w1 in Hin.
  destruct (fresh_name_spec (gl w1)) as [Hz1 Hfresh1].
  assert (names (gl (run Framebuffer_new w1)) = {[framebuffer second]} ∪ names (gl w1)) as Hn
    by reflexivity.
  split_and!.
  - intros Heq. apply Hfresh1. change (fresh_name (gl w1)) with (framebuffer second).
    by rewrite Heq.
  - split; [exact Hz|]. rewrite Hn. by apply elem_of_union_r.
  - split; [exact Hz1|]. rewrite Hn. apply elem_of_union_l, elem_of_singleton. reflexivity.
Qed.

(** ** Binds compose *)

Lemma is_name_raise x e s : is_name x (raise e s) = is_name x s.
Proof. unfold is_name. by rewrite names_raise. Qed.

Lemma raise_raise e s : e ≠ GL_NO_ERROR → raise e (raise e s) = raise e s.
Proof.
  intros He. unfold raise. destruct (glError s =? GL_NO_ERROR)%N eqn:Hs.
  - simpl. apply N.eqb_neq in He. by rewrite He.
  - by rewrite Hs.
Qed.

Lemma glBindFramebuffer_twice t fb s :
  glBindFramebuffer (Target.value t) fb (glBindFramebuffer (Target.value t) fb s)
  = glBindFramebuffer (Target.value t) fb s.
Proof.
  unfold glBindFramebuffer at 2. rewrite target_roles_value.
  destruct (is_name fb s) eqn:Hn.
  - unfold glBindFramebuffer. rewrite target_roles_value.
    change (is_name fb (set_bindings ?a ?b s)) with (is_name fb s). rewrite Hn.
    by destruct t.
  - unfold glBindFramebuffer. rewrite target_roles_value, is_name_raise, Hn.
    by apply raise_raise.
Qed.

Lemma glBindFramebuffer_read_draw fb s :
  glBindFramebuffer GL_DRAW_FRAMEBUFFER fb (glBindFramebuffer GL_READ_FRAMEBUFFER fb s)
  = glBindFramebuffer GL_FRAMEBUFFER fb s
  ∧ glBindFramebuffer GL_READ_FRAMEBUFFER fb (glBindFramebuffer GL_DRAW_FRAMEBUFFER fb s)
    = glBindFramebuffer GL_FRAMEBUFFER fb s.
Proof.
  unfold glBindFramebuffer.
  change (target_roles GL_READ_FRAMEBUFFER) with (Some (true, false)).
  change (target_roles GL_DRAW_FRAMEBUFFER) with (Some (false, true)).
  change (target_roles GL_FRAMEBUFFER) with (Some (true, true)).
  cbv iota beta.
  destruct (is_name fb s) eqn:Hn.
  - change (is_name fb (set_bindings ?a ?b s)) with (is_name fb s). by rewrite Hn.
  - rewrite !is_name_raise, Hn. by rewrite raise_raise.
Qed.

(** X12.  Binding for both roles at once is binding for reading and for
    drawing, in either order: [bind(ReadDraw)] leaves the context as
    [bind(Read)] followed by [bind(Draw)] does, and as [bind(Draw)]
    followed by [bind(Read)] does; the same holds for [bindDefault]; and
    repeating a bind changes nothing.  This holds for any handle, a dead
    one included (the native layer then rejects every one of the binds). *)
Theorem bind_both_is_read_and_draw (this : Framebuffer) (w : World) :
  gl (run (bind this Target.Read ;; bind this Target.Draw) w)
  = gl (run (bind this Target.ReadDraw) w)
  ∧ gl (run (bind this Target.Draw ;; bind this Target.Read) w)
    = gl (run (bind this Target.ReadDraw) w)
  ∧ gl (run (bindDefault Target.Read ;; bindDefault Target.Draw) w)
    = gl (run (bindDefault Target.ReadDraw) w)
  ∧ gl (run (bindDefault Target.Draw ;; bindDefault Target.Read) w)
    = gl (run (bindDefault Target.ReadDraw) w)
  ∧ (∀ t, gl (run (bind this t ;; bind this t) w) = gl (run (bind this t) w))
  ∧ (∀ t, gl (run (bindDefault t ;; bindDefault t) w) = gl (run (bindDefault t) w)).
Proof.
  split_and!; intros; rewrite run_seq; unfold bindDefault; rewrite ?gl_run_bind, ?gl_run_native;
    cbn [gl_exec Target.value].
  - apply glBindFramebuffer_read_draw.
  - apply glBindFramebuffer_read_draw.
  - apply glBindFramebuffer_read_draw.
  - apply glBindFramebuffer_read_draw.
  - apply glBindFramebuffer_twice.
  - apply glBindFramebuffer_twice.
Qed.

(** ** Stencil mask and blend setters *)

(** X13.  The stencil mask set for both faces at once is the mask set for
    each face in turn: [setStencilMask(bits)] leaves the context as
    [setStencilMask(FrontAndBack, bits)] does, and as setting [Front] and
    [Back] to [bits] one after the other does, in either order.  Setting
    one face leaves the other face's mask alone, so masks set for different
    faces commute; and no face enumerator is rejected by the native
    layer. *)
Theorem stencil_mask_both_faces_is_each_face (bits a b : N) (w : Pipeline.World) :
  Pipeline.state (Pipeline.setStencilMask_face Pipeline.StencilMaskFace.FrontAndBack bits w)
  = Pipeline.state (Pipeline.setStencilMask bits w)
  ∧ Pipeline.state
      (Pipeline.setStencilMask_face Pipeline.StencilMaskFace.Back bits
         (Pipeline.setStencilMask_face Pipeline.StencilMaskFace.Front bits w))
    = Pipeline.state (Pipeline.setStencilMask bits w)
  ∧ Pipeline.state
      (Pipeline.setStencilMask_face Pipeline.StencilMaskFace.Front bits
         (Pipeline.setStencilMask_face Pipeline.StencilMaskFace.Back bits w))
    = Pipeline.state (Pipeline.setStencilMask bits w)
  ∧ Pipeline.state
      (Pipeline.setStencilMask_face Pipeline.StencilMaskFace.Front a
         (Pipeline.setStencilMask_face Pipeline.StencilMaskFace.Back b w))
    = Pipeline.state
        (Pipeline.setStencilMask_face Pipeline.StencilMaskFace.Back b
           (Pipeline.setStencilMask_face Pipeline.StencilMaskFace.Front a w))
  ∧ Pipeline.stencilWritemaskBack
      (Pipeline.state (Pipeline.setStencilMask_face Pipeline.StencilMaskFace.Front a w))
    = Pipeline.stencilWritemaskBack (Pipeline.state w)
  ∧ Pipeline.stencilWritemaskFront
      (Pipeline.state (Pipeline.setStencilMask_face Pipeline.StencilMaskFace.Back b w))
    = Pipeline.stencilWritemaskFront (Pipeline.state w)
  ∧ (∀ face, Pipeline.error (Pipeline.state (Pipeline.setStencilMask_face face bits w))
             = Pipeline.error (Pipeline.state w)).
Proof. split_and!; try reflexivity. by intros []. Qed.

(** The joint blend setters are the separate ones with the argument
    given twice: [setBlendEquation(e)] leaves the context as
    [setBlendEquation(e, e)] does and [setBlendFunction(s, d)] as
    [setBlendFunction(s, d, s, d)] does; a joint setting replaces an
    earlier separate one entirely; and equation and function settings do
    not disturb each other (they commute, and neither touches the stencil
    masks). *)
Lemma blend_joint_setter_is_separate_twice
    (e r al : Pipeline.BlendEquation.t) (s d : Pipeline.BlendFunction.t)
    (w : Pipeline.World) :
  Pipeline.state (Pipeline.setBlendEquation e w)
  = Pipeline.state (Pipeline.setBlendEquation_separate e e w)
  ∧ Pipeline.state (Pipeline.setBlendFunction s d w)
    = Pipeline.state (Pipeline.setBlendFunction_separate s d s d w)
  ∧ Pipeline.state (Pipeline.setBlendEquation e (Pipeline.setBlendEquation_separate r al w))
    = Pipeline.state (Pipeline.setBlendEquation e w)
  ∧ Pipeline.state (Pipeline.setBlendFunction s d (Pipeline.setBlendEquation e w))
    = Pipeline.state (Pipeline.setBlendEquation e (Pipeline.setBlendFunction s d w))
  ∧ Pipeline.stencilWritemaskFront
      (Pipeline.state (Pipeline.setBlendFunction s d (Pipeline.setBlendEquation e w)))
    = Pipeline.stencilWritemaskFront (Pipeline.state w)
  ∧ Pipeline.stencilWritemaskBack
      (Pipeline.state (Pipeline.setBlendFunction s d (Pipeline.setBlendEquation e w)))
    = Pipeline.stencilWritemaskBack (Pipeline.state w).
Proof. split_and!; reflexivity. Qed.

(** ** Enumerators *)

(** X14.  No two enumerators of an enumeration of the class share a native
    value, so the cast to the native constant loses nothing; and the bits
    of the clear mask (which are those of the blit mask) are pairwise
    disjoint, so a mask names each buffer independently. *)
Theorem enumerators_have_distinct_values :
  (∀ a b, Feature.value a = Feature.value b → a = b)
  ∧ (∀ a b, Target.value a = Target.value b → a = b)
  ∧ (∀ a b, DepthStencilAttachment.value a = DepthStencilAttachment.value b → a = b)
  ∧ (∀ a b, DefaultDrawAttachment.value a = DefaultDrawAttachment.value b → a = b)
  ∧ (∀ a b, DefaultReadAttachment.value a = DefaultReadAttachment.value b → a = b)
  ∧ (∀ a b, Pipeline.StencilMaskFace.value a = Pipeline.StencilMaskFace.value b → a = b)
  ∧ (∀ a b, Pipeline.BlendEquation.value a = Pipeline.BlendEquation.value b → a = b)
  ∧ (∀ a b, Pipeline.BlendFunction.value a = Pipeline.BlendFunction.value b → a = b)
  ∧ (∀ a b, Clear.value a = Clear.value b → a = b)
  ∧ (∀ a b, N.land (Clear.value a) (Clear.value b) = 0%N ∨ a = b)
  ∧ (∀ a b, (Clear.value a = Blit.value b)
            ↔ match a, b with
              | Clear.Color, Blit.Color | Clear.Depth, Blit.Depth
              | Clear.Stencil, Blit.Stencil => True
              | _, _ => False
              end).
Proof.
  split_and!; intros a b;
    try (intros H; destruct a, b; try reflexivity; vm_compute in H; discriminate H).
  - destruct a, b; (by right) || (by left).
  - destruct a, b; split; try done; intros H; vm_compute in H; discriminate H.
Qed.

(** ** Instances of the further properties *)

Lemma attach_changes_only_its_slot_witness :
  live targetA two_targets
  ∧ (2%N ≠ framebuffer targetA
     ∨ GL_COLOR_ATTACHMENT0
       ∉ attachment_points (attach_slot (RenderbufferColor Target.Draw 0 depthBuffer)))
  ∧ attachments (gl (run (attach targetA (RenderbufferColor Target.Draw 0 depthBuffer))
                         two_targets)) !! (2%N, GL_COLOR_ATTACHMENT0)
    = attachments (gl two_targets) !! (2%N, GL_COLOR_ATTACHMENT0).
Proof.
  assert (live targetA two_targets) as Hl
    by (split; [discriminate | vm_compute; reflexivity]).
  assert (2%N ≠ framebuffer targetA
          ∨ GL_COLOR_ATTACHMENT0
            ∉ attachment_points (attach_slot (RenderbufferColor Target.Draw 0 depthBuffer)))
    as Hother by (left; discriminate).
  split_and!; [exact Hl|exact Hother|].
  exact (proj1 (attach_changes_only_its_slot targetA
    (RenderbufferColor Target.Draw 0 depthBuffer) two_targets 2 GL_COLOR_ATTACHMENT0
    Hl Hother)).
Defined.

Lemma attach_then_query_depth_stencil_witness :
  live targetA two_targets
  ∧ attach_ds_index (RenderbufferDS Target.Draw DepthStencilAttachment.DepthStencil depthBuffer)
    = Some DepthStencilAttachment.DepthStencil
  ∧ (attach_resource
       (RenderbufferDS Target.Draw DepthStencilAttachment.DepthStencil depthBuffer)).1 ≠ 0%N
  ∧ depth_slot targetA
      (run (attach targetA
              (RenderbufferDS Target.Draw DepthStencilAttachment.DepthStencil depthBuffer))
           two_targets)
    = Some (AttRenderbuffer 7).
Proof.
  assert (live targetA two_targets) as Hl
    by (split; [discriminate | vm_compute; reflexivity]).
  assert ((attach_resource
       (RenderbufferDS Target.Draw DepthStencilAttachment.DepthStencil depthBuffer)).1 ≠ 0%N)
    as Hres by discriminate.
  split_and!; [exact Hl|reflexivity|exact Hres|].
  exact (proj1 (attach_then_query_depth_stencil targetA
    (RenderbufferDS Target.Draw DepthStencilAttachment.DepthStencil depthBuffer)
    DepthStencilAttachment.DepthStencil two_targets Hl eq_refl Hres)).
Defined.

Lemma attachment_survives_attach_on_other_target_witness :
  live targetA two_targets ∧ live targetB two_targets
  ∧ framebuffer targetB ≠ framebuffer targetA
  ∧ attach_color_index (Texture2DColor Target.Draw 3 colorTexture 0) = Some 3%N
  ∧ (3 < maxColorAttachments)%N
  ∧ (attach_resource (Texture2DColor Target.Draw 3 colorTexture 0)).1 ≠ 0%N
  ∧ color_slot targetA 3
      (run (attach targetB (RenderbufferColor Target.Draw 3 depthBuffer))
           (run (attach targetA (Texture2DColor Target.Draw 3 colorTexture 0)) two_targets))
    = Some (AttTexture 0x0DE1 9 0 0).
Proof.
  assert (live targetA two_targets) as HA
    by (split; [discriminate | vm_compute; reflexivity]).
  assert (live targetB two_targets) as HB
    by (split; [discriminate | vm_compute; reflexivity]).
  assert (framebuffer targetB ≠ framebuffer targetA) as Hne by discriminate.
  assert (3 < maxColorAttachments)%N as Hn by reflexivity.
  assert ((attach_resource (Texture2DColor Target.Draw 3 colorTexture 0)).1 ≠ 0%N) as Hres
    by discriminate.
  split_and!; [exact HA|exact HB|exact Hne|reflexivity|exact Hn|exact Hres|].
  exact (attachment_survives_attach_on_other_target targetA targetB
    (Texture2DColor Target.Draw 3 colorTexture 0) (RenderbufferColor Target.Draw 3 depthBuffer)
    3 two_targets HA HB Hne eq_refl Hn Hres).
Defined.

Lemma color_index_aliases_depth_stencil_witness :
  (32 < 2 ^ 32)%N
  ∧ ∀ w, attachRenderbuffer targetA Target.Draw 32 depthBuffer w
         = attachRenderbuffer_ds targetA Target.Draw DepthStencilAttachment.Depth depthBuffer w.
Proof.
  assert (32 < 2 ^ 32)%N as Hn by reflexivity.
  split; [exact Hn|].
  exact (proj2 (color_index_aliases_depth_stencil targetA Target.Draw depthBuffer
    DepthStencilAttachment.Depth 32 Hn) eq_refl).
Defined.

Lemma attach_to_invalid_slot_only_rebinds_witness :
  live targetA (run (bind targetB Target.Draw) two_targets)
  ∧ attachment_points (attach_slot (RenderbufferColor Target.Draw 16 depthBuffer)) = []
  ∧ current Target.Draw
      (run (attach targetA (RenderbufferColor Target.Draw 16 depthBuffer))
           (run (bind targetB Target.Draw) two_targets))
    = framebuffer targetA.
Proof.
  assert (live targetA (run (bind targetB Target.Draw) two_targets)) as Hl
    by (split; [discriminate | vm_compute; reflexivity]).
  split_and!; [exact Hl|reflexivity|].
  exact (proj1 (proj2 (attach_to_invalid_slot_only_rebinds targetA
    (RenderbufferColor Target.Draw 16 depthBuffer) _ Hl eq_refl))).
Defined.


Lemma no_dangling_references_witness :
  Forall in_header
    [OpNew; OpBind targetA Target.Draw;
     OpAttach targetA (RenderbufferColor Target.Draw 0 depthBuffer); OpDelete targetA]
  ∧ well_formed (gl initial)
  ∧ well_formed
      (gl (exec_all [OpNew; OpBind targetA Target.Draw;
                     OpAttach targetA (RenderbufferColor Target.Draw 0 depthBuffer);
                     OpDelete targetA] initial)).
Proof.
  assert (Forall in_header
            [OpNew; OpBind targetA Target.Draw;
             OpAttach targetA (RenderbufferColor Target.Draw 0 depthBuffer); OpDelete targetA])
    as Hops by (repeat constructor).
  split_and!; [exact Hops|exact well_formed_initial|].
  exact (no_dangling_references _ initial Hops well_formed_initial).
Defined.

Lemma new_target_is_empty_witness :
  Forall in_header
    [OpNew; OpAttach targetA (RenderbufferColor Target.Draw 0 depthBuffer); OpDelete targetA]
  ∧ well_formed (gl initial)
  ∧ ∀ p, attachments
           (gl (run Framebuffer_new
                  (exec_all [OpNew;
                             OpAttach targetA (RenderbufferColor Target.Draw 0 depthBuffer);
                             OpDelete targetA] initial))) !! (1%N, p) = None.
Proof.
  assert (Forall in_header
            [OpNew; OpAttach targetA (RenderbufferColor Target.Draw 0 depthBuffer);
             OpDelete targetA])
    as Hops by (repeat constructor).
  split_and!; [exact Hops|exact well_formed_initial|].
  exact (proj1 (new_target_is_empty _ initial Hops well_formed_initial)).
Defined.

Lemma destroyed_target_leaves_nothing_witness :
  live targetA (run (attach targetA (RenderbufferColor Target.Draw 0 depthBuffer)) two_targets)
  ∧ ∀ p, attachments
           (gl (run (Framebuffer_delete targetA)
                  (run (attach targetA (RenderbufferColor Target.Draw 0 depthBuffer))
                       two_targets))) !! (framebuffer targetA, p) = None.
Proof.
  assert (live targetA
            (run (attach targetA (RenderbufferColor Target.Draw 0 depthBuffer)) two_targets))
    as Hl by (split; [discriminate | vm_compute; reflexivity]).
  split; [exact Hl|].
  exact (proj1 (destroyed_target_leaves_nothing targetA _ Hl)).
Defined.


Lemma live_targets_have_distinct_handles_witness :
  Forall (λ o, o ≠ OpDelete (Framebuffer_new initial).1)
    [OpBind targetA Target.Draw; OpDelete targetB]
  ∧ framebuffer (Framebuffer_new
                   (exec_all [OpBind targetA Target.Draw; OpDelete targetB]
                      (run Framebuffer_new initial))).1
    ≠ framebuffer (Framebuffer_new initial).1.
Proof.
  assert (Forall (λ o, o ≠ OpDelete (Framebuffer_new initial).1)
            [OpBind targetA Target.Draw; OpDelete targetB])
    as Hops by (repeat constructor; intros H; vm_compute in H; discriminate H).
  split; [exact Hops|].
  exact (proj1 (live_targets_have_distinct_handles _ initial Hops)).
Defined.
